(** * ML service (ml/server.py): classification and skill-based ranking

    Shallow embedding of [ml/server.py].  Python values that arrive from JSON
    are modelled by the inductive [json]; a Python [str] is the list of its
    Unicode code points; a Python float is a rational number (every finite
    float is one), with the two transcendental library functions the code
    calls ([np.exp], the square root inside [np.linalg.norm]) taken as
    parameters; a [dict] used as a map is a [gmap]; code that can raise
    returns in the [result] type.  *)

From Stdlib Require Import ZArith NArith QArith List String Ascii Lia Permutation Sorted.
From stdpp Require Import base option list gmap.
Import ListNotations.

Set Warnings "-register-all".
Local Open Scope nat_scope.

(** ** Python values *)

(** A Python [str]: the sequence of its code points. *)
Abbreviation pystr := (list N).

(** Decoder used to write string literals of the source (the file is UTF-8,
    so a Rocq string literal holds the UTF-8 bytes of the Python literal). *)
Fixpoint utf8_go (bs : list N) (need : nat) (acc : N) : list N :=
  match bs with
  | [] => []
  | b :: bs' =>
    match need with
    | O =>
      if (b <? 0x80)%N then b :: utf8_go bs' 0 0%N
      else if (b <? 0xE0)%N then utf8_go bs' 1 (N.land b 0x1F)
      else if (b <? 0xF0)%N then utf8_go bs' 2 (N.land b 0x0F)
      else utf8_go bs' 3 (N.land b 0x07)
    | S O => (acc * 64 + N.land b 0x3F)%N :: utf8_go bs' 0 0%N
    | S n => utf8_go bs' n (acc * 64 + N.land b 0x3F)%N
    end
  end.

Definition u (s : string) : pystr :=
  utf8_go (map N_of_ascii (list_ascii_of_string s)) 0 0%N.

(** Values produced by [json.loads] / [resp.json()]. A [dict] is kept as the
    association list of its items (keys are distinct in a parsed dict). *)
Inductive json : Type :=
| JNull
| JBool (b : bool)
| JNum (q : Q)
| JStr (s : pystr)
| JList (l : list json)
| JDict (d : list (pystr * json)).

(** Exceptions the code can raise or let through; the ones the code
    builds a message for carry it. *)
Inductive exn : Type :=
| TypeError
| ValueError
| AttributeError
| IndexError
| OverflowError
| FileNotFoundError (msg : pystr)
| ClientError (msg : pystr)
| HTTPException (status_code : Z) (detail : pystr).

Inductive result (A : Type) : Type :=
| Ok (a : A)
| Raise (e : exn).
Arguments Ok {A} a.
Arguments Raise {A} e.

Definition rbind {A B} (r : result A) (k : A -> result B) : result B :=
  match r with
  | Ok a => k a
  | Raise e => Raise e
  end.

#[global] Instance result_bind : MBind result :=
  fun A B k r => rbind r k.

(** Python truthiness ([bool(x)]) of a JSON value. *)
Definition truthy (v : json) : bool :=
  match v with
  | JNull => false
  | JBool b => b
  | JNum q => negb (Qeq_bool q 0)
  | JStr s => negb (Nat.eqb (length s) 0)
  | JList l => negb (Nat.eqb (length l) 0)
  | JDict d => negb (Nat.eqb (length d) 0)
  end.

(** [x or y] *)
Definition py_or (x y : json) : json := if truthy x then x else y.

(** [sep.join(parts)] *)
Fixpoint join (sep : pystr) (parts : list pystr) : pystr :=
  match parts with
  | [] => []
  | [p] => p
  | p :: rest => p ++ sep ++ join sep rest
  end.

Definition pystr_eqb (a b : pystr) : bool := bool_decide (a = b).

(** [d.get(key, default)] on a dict. *)
Fixpoint assoc_get (d : list (pystr * json)) (key : pystr) : option json :=
  match d with
  | [] => None
  | (k, v) :: d' => if pystr_eqb k key then Some v else assoc_get d' key
  end.

(** [obj.get(key, default)]: only a dict has [.get]. *)
Definition obj_get (obj : json) (key : pystr) (default : json) : result json :=
  match obj with
  | JDict d => Ok (match assoc_get d key with Some v => v | None => default end)
  | _ => Raise AttributeError
  end.

(** ** Utils: normalization *)

Module Norm.

(** [str.isspace] for one code point (the table of CPython's
    [_PyUnicode_IsWhitespace]). *)
Definition is_space (c : N) : bool :=
  ((0x9 <=? c) && (c <=? 0xD) || (0x1C <=? c) && (c <=? 0x20)
   || (c =? 0x85) || (c =? 0xA0) || (c =? 0x1680)
   || (0x2000 <=? c) && (c <=? 0x200A)
   || (c =? 0x2028) || (c =? 0x2029) || (c =? 0x202F) || (c =? 0x205F)
   || (c =? 0x3000))%N.

Fixpoint lstrip (s : pystr) : pystr :=
  match s with
  | [] => []
  | c :: s' => if is_space c then lstrip s' else s
  end.

Fixpoint rstrip (s : pystr) : pystr :=
  match s with
  | [] => []
  | c :: s' =>
    match rstrip s' with
    | [] => if is_space c then [] else [c]
    | r => c :: r
    end
  end.

(** [s.strip()] *)
Definition strip (s : pystr) : pystr := rstrip (lstrip s).

(** The two letters of line 64: "ё" (U+0451) and "е" (U+0435). *)
Definition yo : N := 0x451%N.
Definition ie : N := 0x435%N.

(** [s.replace(old, new)] where [old] is a single code point. *)
Definition replace1 (old : N) (new : pystr) (s : pystr) : pystr :=
  flat_map (fun c => if (c =? old)%N then new else [c]) s.

(** [s.replace("ё", "е")] *)
Definition fold_yo (s : pystr) : pystr := replace1 yo [ie] s.

Section Normalize.
(** [unicodedata.normalize("NFC", _)] and [str.lower] are library
    functions. *)
Variable nfc : pystr -> pystr.
Variable lower : pystr -> pystr.

Definition _normalize_text (s : json) : pystr :=
  match s with
  | JStr s =>
    let s := nfc s in
    let s := fold_yo s in
    strip s
  | _ => []
  end.

Definition synonyms : list (pystr * pystr) :=
  [ (u "cpp", u "c++");
    (u "c plus plus", u "c++");
    (u "c-плюс-плюс", u "c++");
    (u "си", u "c");
    (u "js", u "javascript") ].

Fixpoint synonyms_get (tbl : list (pystr * pystr)) (s : pystr) : pystr :=
  match tbl with
  | [] => s
  | (k, v) :: tbl' => if pystr_eqb k s then v else synonyms_get tbl' s
  end.

Definition _norm_token (t : json) : pystr :=
  match t with
  | JStr t =>
    let s := lower (strip (nfc t)) in
    let s := fold_yo s in
    synonyms_get synonyms s
  | _ => []
  end.

(** The loop body of [_norm_list]; [out] is kept in order, and [seen]
    always holds exactly the elements of [out]. *)
Definition norm_list_step (acc : list pystr) (x : json) : list pystr :=
  let n := _norm_token x in
  if negb (Nat.eqb (length n) 0) && negb (bool_decide (n ∈ acc))
  then acc ++ [n] else acc.

(** What [for x in xs] iterates over. Iterating a [str] yields its
    one-character strings, iterating a [dict] yields its keys; a number or
    [True] is not iterable. *)
Definition py_iter (xs : json) : result (list json) :=
  match xs with
  | JList l => Ok l
  | JStr s => Ok (map (fun c => JStr [c]) s)
  | JDict d => Ok (map (fun kv => JStr (fst kv)) d)
  | _ => Raise TypeError
  end.

Definition _norm_list (xs : json) : result (list pystr) :=
  l ← py_iter (py_or xs (JList []));
  Ok (fold_left norm_list_step l []).
End Normalize.

(** *** Canonical composition over an excerpt of the Unicode tables

    The NFC algorithm (canonical decomposition, canonical ordering,
    canonical composition) over the tables given as arguments; Hangul
    syllables, which are composed by arithmetic, are left out. *)
Section NFC.
Variable decomp : N -> option (list N).
Variable ccc : N -> N.
Variable compose_pair : N -> N -> option N.

Definition decompose (s : pystr) : pystr :=
  flat_map (fun c => match decomp c with Some d => d | None => [c] end) s.

(** [out] is the reversed prefix already ordered. *)
Fixpoint insert_mark (c : N) (out : list N) : list N :=
  match out with
  | p :: r =>
    if ((0 <? ccc c) && (ccc c <? ccc p))%N then p :: insert_mark c r
    else c :: out
  | [] => [c]
  end.

Definition reorder (s : pystr) : pystr :=
  rev (fold_left (fun acc c => insert_mark c acc) s []).

(** [starter] is the last starter seen, [marks] the (reversed) marks
    after it, [done] the (reversed) output before it. *)
Fixpoint compose_go (s : pystr) (starter : option N) (marks done : list N)
  : pystr :=
  match s with
  | [] =>
    rev done ++ match starter with Some st => [st] | None => [] end
             ++ rev marks
  | c :: s' =>
    match starter with
    | None =>
      if (ccc c =? 0)%N then compose_go s' (Some c) [] done
      else compose_go s' None [] (c :: done)
    | Some st =>
      let blocked :=
        match marks with
        | [] => false
        | m :: _ => (ccc c <=? ccc m)%N
        end in
      match (if blocked then None else compose_pair st c) with
      | Some comp => compose_go s' (Some comp) marks done
      | None =>
        if (ccc c =? 0)%N then compose_go s' (Some c) [] (marks ++ st :: done)
        else compose_go s' starter (c :: marks) done
      end
    end
  end.

Definition nfc_of_tables (s : pystr) : pystr :=
  compose_go (reorder (decompose s)) None [] [].
End NFC.

(** The UnicodeData entries of the Cyrillic letters Ie/ie with a grave, a
    diaeresis or a breve, and of these three combining marks. *)
Definition cyr_decomp (c : N) : option (list N) :=
  if (c =? 0x400)%N then Some [0x415; 0x300]%N
  else if (c =? 0x401)%N then Some [0x415; 0x308]%N
  else if (c =? 0x4D6)%N then Some [0x415; 0x306]%N
  else if (c =? 0x450)%N then Some [0x435; 0x300]%N
  else if (c =? 0x451)%N then Some [0x435; 0x308]%N
  else if (c =? 0x4D7)%N then Some [0x435; 0x306]%N
  else None.

Definition cyr_ccc (c : N) : N :=
  if ((c =? 0x300) || (c =? 0x306) || (c =? 0x308))%N then 230%N else 0%N.

Definition cyr_compose (a b : N) : option N :=
  if (a =? 0x415)%N then
    if (b =? 0x300)%N then Some 0x400%N
    else if (b =? 0x308)%N then Some 0x401%N
    else if (b =? 0x306)%N then Some 0x4D6%N else None
  else if (a =? 0x435)%N then
    if (b =? 0x300)%N then Some 0x450%N
    else if (b =? 0x308)%N then Some 0x451%N
    else if (b =? 0x306)%N then Some 0x4D7%N else None
  else None.

Definition nfc_cyr : pystr -> pystr :=
  nfc_of_tables cyr_decomp cyr_ccc cyr_compose.

(** ASCII and basic Cyrillic lowercasing, enough for the tokens of the
    source. *)
Definition lower_basic (s : pystr) : pystr :=
  map (fun c =>
         if ((0x41 <=? c) && (c <=? 0x5A))%N then (c + 32)%N
         else if ((0x410 <=? c) && (c <=? 0x42F))%N then (c + 32)%N
         else if ((0x400 <=? c) && (c <=? 0x40F))%N then (c + 80)%N
         else c) s.

End Norm.


(** ** Configuration and library functions *)

(** The environment of the module: the library functions it calls and the
    constants it reads from the process environment at import time. *)
Record Env : Type := {
  nfc : pystr -> pystr;               (* unicodedata.normalize("NFC", _) *)
  lower : pystr -> pystr;             (* str.lower *)
  fexp : Q -> Q;                      (* np.exp *)
  fsqrt : Q -> Q;                     (* the square root of np.linalg.norm *)
  argsort : list Q -> list nat;       (* np.argsort, default kind *)
  parse_float : pystr -> option Q;    (* float(str) *)
  parse_int : pystr -> option Z;      (* int(str) *)
  exn_str : exn -> pystr;             (* str(e) *)
  ARTIFACTS_DIR : pystr;
  DEFAULT_THR : Q;
  MP_API_PAGE_LIMIT : Z;
  CACHE_TTL_SEC : Z
}.

(** ** numpy *)

Module Np.

(** [a[i]] for a list index in range; [IndexError] otherwise. *)
Definition getitem {A} (a : list A) (i : nat) : result A :=
  match a !! i with
  | Some x => Ok x
  | None => Raise IndexError
  end.

(** [a[idx]] with an index array. *)
Fixpoint take {A} (a : list A) (idx : list nat) : result (list A) :=
  match idx with
  | [] => Ok []
  | i :: idx' => x ← getitem a i; xs ← take a idx'; Ok (x :: xs)
  end.

(** [np.where(mask)[0]] *)
Fixpoint where_from (i : nat) (mask : list bool) : list nat :=
  match mask with
  | [] => []
  | b :: mask' => if b then i :: where_from (S i) mask' else where_from (S i) mask'
  end.

Definition where_ (mask : list bool) : list nat := where_from 0 mask.

(** [a >= b] on one-dimensional arrays, with numpy's broadcasting of an
    array of length 1. *)
Definition ge (a b : list Q) : result (list bool) :=
  if Nat.eqb (length a) (length b)
  then Ok (zip_with (fun x y => Qle_bool y x) a b)
  else match a, b with
       | [x], _ => Ok (map (fun y => Qle_bool y x) b)
       | _, [y] => Ok (map (fun x => Qle_bool y x) a)
       | _, _ => Raise ValueError
       end.

(** [np.full(n, x)] *)
Definition full (n : nat) (x : Q) : list Q := repeat x n.

(** [-a] *)
Definition neg (a : list Q) : list Q := map Qopp a.

(** The contract of [np.argsort]: the indices of the array in an order
    that sorts it; the default kind makes no promise on equal elements. *)
Definition argsort_spec (f : list Q -> list nat) : Prop :=
  forall v : list Q,
    Permutation (f v) (seq 0 (length v)) /\
    forall a b i j x y, a < b ->
      f v !! a = Some i -> f v !! b = Some j ->
      v !! i = Some x -> v !! j = Some y -> (x <= y)%Q.

(** A stable sort of an index list by a key, as each pass of [np.lexsort]
    performs: an index is inserted before the first index whose key is
    not smaller. *)
Section StableSort.
Context {K : Type} (leb : K -> K -> bool) (key : nat -> K).

Fixpoint insert_by (i : nat) (l : list nat) : list nat :=
  match l with
  | [] => [i]
  | j :: l' => if leb (key i) (key j) then i :: l else j :: insert_by i l'
  end.

Definition stable_sort_by (l : list nat) : list nat :=
  fold_right insert_by [] l.
End StableSort.

Definition key_of (a : list Q) (i : nat) : Q := nth i a 0%Q.

(** [np.lexsort(keys)]: a stable sort by each key in turn, so that the
    last key is the primary one. *)
Definition lexsort (keys : list (list Q)) : list nat :=
  fold_left (fun order k => stable_sort_by Qle_bool (key_of k) order) keys
            (seq 0 (length (default [] (last keys)))).

(** [np.linalg.norm] of a vector and the dot product. *)
Definition sum (a : list Q) : Q := fold_right Qplus 0%Q a.
Definition dot (a b : list Q) : Q := sum (zip_with Qmult a b).
Definition norm (env : Env) (a : list Q) : Q := fsqrt env (dot a a).

End Np.

(** ** Artifacts loading and ML predict *)

Module Classifier.

(** The sklearn pipeline: [decision_function text] is the row of raw
    scores of [PIPE.decision_function([text])]. *)
Record Pipeline : Type := { decision_function : pystr -> list Q }.

(** An array as [np.load] returns it. *)
Record ndarray : Type := { shape : list nat; data : list Q }.

(** The three files of [ARTIFACTS_DIR], by their loaded contents; [None]
    stands for a file that does not exist. *)
Record Artifacts : Type := {
  model_file : option Pipeline;        (* tfidf_logreg_ovr.joblib *)
  labels_file : option (list pystr);   (* labels.json *)
  thr_file : option ndarray            (* thresholds.npy *)
}.

(** The module globals of the classifier, the lines printed so far and the
    texts the model has been asked to score so far. *)
Record State : Type := {
  PIPE : option Pipeline;
  LABELS : list pystr;
  THRESHOLDS : option ndarray;
  stdout : list pystr;
  model_calls : list pystr
}.

Definition initial : State :=
  {| PIPE := None; LABELS := []; THRESHOLDS := None;
     stdout := []; model_calls := [] |}.

Definition print (line : pystr) (st : State) : State :=
  {| PIPE := PIPE st; LABELS := LABELS st; THRESHOLDS := THRESHOLDS st;
     stdout := stdout st ++ [line]; model_calls := model_calls st |}.

Definition set_globals (p : option Pipeline) (l : list pystr)
  (t : option ndarray) (st : State) : State :=
  {| PIPE := p; LABELS := l; THRESHOLDS := t;
     stdout := stdout st; model_calls := model_calls st |}.

Definition record_call (text : pystr) (st : State) : State :=
  {| PIPE := PIPE st; LABELS := LABELS st; THRESHOLDS := THRESHOLDS st;
     stdout := stdout st; model_calls := model_calls st ++ [text] |}.

Definition warn_thresholds : pystr :=
  u "[WARN] thresholds.npy не совпадает по размеру с labels.json — игнорирую".

(** The message of lines 103-111. *)
Definition missing_message (dir : pystr) (missing : list pystr) : pystr :=
  u "Не найдены артефакты: " ++ join (u ", ") missing ++ u " в " ++ dir
    ++ u "." ++ [10%N]
    ++ u "Ожидается структура:" ++ [10%N]
    ++ u "  artifacts/" ++ [10%N]
    ++ u "    tfidf_logreg_ovr.joblib" ++ [10%N]
    ++ u "    labels.json" ++ [10%N]
    ++ u "    (опц.) thresholds.npy" ++ [10%N]
    ++ u "Или укажи путь через переменную ARTIFACTS_DIR.".

Definition shape_eqb (a b : list nat) : bool := bool_decide (a = b).

Section WithEnv.
Variable env : Env.
Variable fs : Artifacts.

Definition load_artifacts (st : State) : result unit * State :=
  let st := print (u "[INFO] Using ARTIFACTS_DIR = " ++ ARTIFACTS_DIR env) st in
  let missing :=
    (match model_file fs with None => [u "tfidf_logreg_ovr.joblib"] | Some _ => [] end)
    ++ (match labels_file fs with None => [u "labels.json"] | Some _ => [] end) in
  match model_file fs, labels_file fs with
  | Some pipe, Some labels =>
    match thr_file fs with
    | Some arr =>
      if negb (shape_eqb (shape arr) [length labels])
      then (Ok tt, set_globals (Some pipe) labels None (print warn_thresholds st))
      else (Ok tt, set_globals (Some pipe) labels (Some arr) st)
    | None => (Ok tt, set_globals (Some pipe) labels None st)
    end
  | _, _ =>
    (Raise (FileNotFoundError (missing_message (ARTIFACTS_DIR env) missing)), st)
  end.

(** [1.0 / (1.0 + np.exp(-x))] *)
Definition sigmoid (x : Q) : Q := (1 / (1 + fexp env (- x)))%Q.

(** Line 140. *)
Definition thresholds_of (st : State) : list Q :=
  match THRESHOLDS st with
  | Some arr => data arr
  | None => Np.full (length (LABELS st)) (DEFAULT_THR env)
  end.

Definition predict_labels (description : json) (st : State)
  : result (list pystr) * State :=
  let '(loaded, st) :=
    if match PIPE st with None => true | Some _ => false end
       || Nat.eqb (length (LABELS st)) 0
    then load_artifacts st else (Ok tt, st) in
  match loaded with
  | Raise e => (Raise e, st)
  | Ok _ =>
    let text := Norm._normalize_text (nfc env) (py_or description (JStr [])) in
    if Nat.eqb (length text) 0 then (Ok [], st)
    else
      match PIPE st with
      | None => (Raise AttributeError, st)
      | Some pipe =>
        let scores := decision_function pipe text in
        let st := record_call text st in
        let probs := map sigmoid scores in
        let thresholds := thresholds_of st in
        (mask ← Np.ge probs thresholds;
         let idx := Np.where_ mask in
         if Nat.eqb (length idx) 0 then Ok []
         else
           sub ← Np.take probs idx;
           idx_sorted ← Np.take idx (argsort env (Np.neg sub));
           Np.take (LABELS st) idx_sorted,
         st)
      end
  end.

(** The [/predict] handler: every exception becomes a 500 response. *)
Definition predict (description : json) (st : State)
  : result (list pystr) * State :=
  match predict_labels description st with
  | (Ok labels, st) => (Ok labels, st)
  | (Raise (FileNotFoundError msg), st) =>
    (Raise (HTTPException 500 msg), st)
  | (Raise e, st) =>
    (Raise (HTTPException 500 (u "Internal error: " ++ exn_str env e)), st)
  end.
End WithEnv.

End Classifier.

(** ** External API clients (catalog) and the cache *)

Module Catalog.

(** One page request: the URL
    [f"{MP_API_BASE}/{endpoint}?skip={skip}&limit={MP_API_PAGE_LIMIT}"]
    by its varying parts. *)
Record request : Type := { endpoint : pystr; skip : Z; limit : Z }.

(** What [resp.status], [resp.text()] and [resp.json()] give; [inl msg] is
    a body for which [resp.json()] raises an exception of message [msg]. *)
Record response : Type := {
  status : Z;
  text : pystr;
  json_body : pystr + json
}.

(** The outcome of [session.get]: the request fails in transport (a
    timeout, a connection error), or a response arrives. *)
Inductive reply : Type :=
| Failed (msg : pystr)
| Replied (resp : response).

(** The external catalog, as seen during one fetch. *)
Definition server : Type := request -> reply.

Record cache_slot : Type := { ts : Q; items : list json }.

(** The two module-level cache dicts, the page requests sent so far and
    the endpoints [_get_all] has been called on so far. *)
Record State : Type := {
  _cache_comm : cache_slot;
  _cache_posts : cache_slot;
  requests : list request;
  fetches : list pystr
}.

Definition initial : State :=
  {| _cache_comm := {| ts := 0; items := [] |};
     _cache_posts := {| ts := 0; items := [] |};
     requests := []; fetches := [] |}.

Definition send (r : request) (st : State) : State :=
  {| _cache_comm := _cache_comm st; _cache_posts := _cache_posts st;
     requests := requests st ++ [r]; fetches := fetches st |}.

Definition enter_fetch (e : pystr) (st : State) : State :=
  {| _cache_comm := _cache_comm st; _cache_posts := _cache_posts st;
     requests := requests st; fetches := fetches st ++ [e] |}.

Definition set_comm (c : cache_slot) (st : State) : State :=
  {| _cache_comm := c; _cache_posts := _cache_posts st;
     requests := requests st; fetches := fetches st |}.

Definition set_posts (c : cache_slot) (st : State) : State :=
  {| _cache_comm := _cache_comm st; _cache_posts := c;
     requests := requests st; fetches := fetches st |}.

Section WithEnv.
Variable env : Env.
Variable srv : server.

(** The [while True] loop of [_get_all]; [None] when [fuel] iterations
    were not enough to leave it. *)
Fixpoint get_all_loop (fuel : nat) (endpoint : pystr) (skip : Z)
  (items : list json) (st : State) : option (result (list json) * State) :=
  match fuel with
  | O => None
  | S fuel' =>
    let req := {| endpoint := endpoint; skip := skip;
                  limit := MP_API_PAGE_LIMIT env |} in
    let st := send req st in
    match srv req with
    | Failed msg => Some (Raise (ClientError msg), st)
    | Replied resp =>
      if negb (status resp =? 200)%Z
      then Some (Raise (HTTPException (status resp) (u "API error: " ++ text resp)), st)
      else
        match json_body resp with
        | inl e =>
          Some (Raise (HTTPException 500 (u "Invalid json from API: " ++ e)), st)
        | inr (JList page) =>
          let items := items ++ page in
          if (Z.of_nat (length page) <? MP_API_PAGE_LIMIT env)%Z
          then Some (Ok items, st)
          else get_all_loop fuel' endpoint (skip + MP_API_PAGE_LIMIT env)%Z items st
        | inr _ => Some (Ok items, st)
        end
    end
  end.

Definition _get_all (fuel : nat) (endpoint : pystr) (st : State)
  : option (result (list json) * State) :=
  get_all_loop fuel endpoint 0%Z [] (enter_fetch endpoint st).

(** [now] is the value [time.time()] returns in the call. *)
Definition _get_communities (fuel : nat) (now : Q) (st : State)
  : option (result (list json) * State) :=
  if negb (Qle_bool (now - ts (_cache_comm st)) (inject_Z (CACHE_TTL_SEC env)))
  then
    match _get_all fuel (u "communities/") st with
    | None => None
    | Some (Raise e, st) => Some (Raise e, st)
    | Some (Ok fetched, st) =>
      let st := set_comm {| ts := now; items := fetched |} st in
      Some (Ok (items (_cache_comm st)), st)
    end
  else Some (Ok (items (_cache_comm st)), st).

Definition _get_posts (fuel : nat) (now : Q) (st : State)
  : option (result (list json) * State) :=
  if negb (Qle_bool (now - ts (_cache_posts st)) (inject_Z (CACHE_TTL_SEC env)))
  then
    match _get_all fuel (u "posts/") st with
    | None => None
    | Some (Raise e, st) => Some (Raise e, st)
    | Some (Ok fetched, st) =>
      let st := set_posts {| ts := now; items := fetched |} st in
      Some (Ok (items (_cache_posts st)), st)
    end
  else Some (Ok (items (_cache_posts st)), st).
End WithEnv.

End Catalog.

(** ** Reco: one-hot + cosine *)

Module Reco.

(** [int(x)] for a JSON value, and the store into an [int64] array. *)
Definition py_int (env : Env) (v : json) : result Z :=
  match v with
  | JNum q => Ok (Z.quot (Qnum q) (Zpos (Qden q)))
  | JBool b => Ok (if b then 1 else 0)%Z
  | JStr s => match parse_int env s with Some z => Ok z | None => Raise ValueError end
  | _ => Raise TypeError
  end.

Definition to_int64 (z : Z) : result Z :=
  if ((- 2 ^ 63 <=? z) && (z <? 2 ^ 63))%Z then Ok z else Raise OverflowError.

(** [float(x)] for a JSON value. *)
Definition py_float (env : Env) (v : json) : result Q :=
  match v with
  | JNum q => Ok q
  | JBool b => Ok (if b then 1 else 0)%Q
  | JStr s => match parse_float env s with Some q => Ok q | None => Raise ValueError end
  | _ => Raise TypeError
  end.

(** [v[j] = 1.0] *)
Definition set_one (j : nat) (v : list Q) : result (list Q) :=
  if j <? length v then Ok (<[j := 1%Q]> v) else Raise IndexError.

Record matrix : Type := { nrows : nat; ncols : nat; rows : list (list Q) }.

Definition msize (M : matrix) : nat := nrows M * ncols M.

Record RecoRequest : Type := { skills : list pystr; limit : option Z }.

Record RecoResponseItem : Type := { id : Z; score : Q }.

Section WithEnv.
Variable env : Env.

Definition norm_list (xs : json) : result (list pystr) :=
  Norm._norm_list (nfc env) (lower env) xs.

(** Lines 210-211. *)
Definition vocab_add (vocab : gmap pystr nat) (tok : pystr) : gmap pystr nat :=
  match vocab !! tok with
  | None => <[tok := size vocab]> vocab
  | Some _ => vocab
  end.

Fixpoint build_vocab_from (vocab : gmap pystr nat) (objects : list json)
  : result (gmap pystr nat) :=
  match objects with
  | [] => Ok vocab
  | obj :: objects' =>
    sk ← obj_get obj (u "skills") (JList []);
    toks ← norm_list sk;
    build_vocab_from (fold_left vocab_add toks vocab) objects'
  end.

Definition _build_vocab (objects : list json) : result (gmap pystr nat) :=
  build_vocab_from ∅ objects.

(** One pass of the token loop of a row (lines 228-235) or of the query
    vector (lines 241-248); [hints] are the tokens that also set "c++". *)
Definition one_hot_step (vocab : gmap pystr nat) (hints : list pystr)
  (acc : result (list Q)) (tok : pystr) : result (list Q) :=
  v ← acc;
  v ← match vocab !! tok with
      | Some j => set_one j v
      | None => Ok v
      end;
  if bool_decide (tok ∈ hints)
  then match vocab !! (u "c++") with
       | Some jcpp => set_one jcpp v
       | None => Ok v
       end
  else Ok v.

Definition one_hot (vocab : gmap pystr nat) (hints : list pystr)
  (L : nat) (toks : list pystr) : result (list Q) :=
  fold_left (one_hot_step vocab hints) toks (Ok (repeat 0%Q L)).

(** Line 226. *)
Definition popularity (obj : json) : result Q :=
  lc ← obj_get obj (u "like_count") (JNum 0);
  mc ← obj_get obj (u "member_count") lc;
  py_float env (py_or mc (JNum 0)).

(** The loop body of [_one_hot_matrix] for one object. *)
Definition one_hot_row (vocab : gmap pystr nat) (obj : json)
  : result (list Q * Z * Q) :=
  i ← obj_get obj (u "id") (JNum 0);
  i ← py_int env i;
  i ← to_int64 i;
  p ← popularity obj;
  sk ← obj_get obj (u "skills") (JList []);
  toks ← norm_list sk;
  row ← one_hot vocab [u "arduino"] (size vocab) toks;
  Ok (row, i, p).

Fixpoint one_hot_rows (vocab : gmap pystr nat) (objects : list json)
  : result (list (list Q) * list Z * list Q) :=
  match objects with
  | [] => Ok ([], [], [])
  | obj :: objects' =>
    r ← one_hot_row vocab obj;
    rest ← one_hot_rows vocab objects';
    Ok (r.1.1 :: rest.1.1, r.1.2 :: rest.1.2, r.2 :: rest.2)
  end.

Definition _one_hot_matrix (objects : list json) (vocab : gmap pystr nat)
  : result (matrix * list Z * list Q) :=
  let L := size vocab in
  if Nat.eqb (length objects) 0 || Nat.eqb L 0
  then Ok ({| nrows := 0; ncols := 0; rows := [] |}, [], [])
  else
    r ← one_hot_rows vocab objects;
    Ok ({| nrows := length objects; ncols := L; rows := r.1.1 |}, r.1.2, r.2).

Definition _skills_to_vec (skills : list pystr) (vocab : gmap pystr nat)
  : result (list Q) :=
  toks ← norm_list (JList (map JStr skills));
  one_hot vocab [u "arduino"; u "олимпиадная информатика"; u "codeforces"]
          (size vocab) toks.

(** [1e-8] *)
Definition eps : Q := (1 # 100000000)%Q.

Definition _cosine_scores (user_vec : list Q) (M : matrix) : result (list Q) :=
  if Nat.eqb (msize M) 0 then Ok []
  else
    let un := Np.norm env user_vec in
    if Qeq_bool un 0 then Ok (repeat 0%Q (nrows M))
    else if negb (Nat.eqb (ncols M) (length user_vec)) then Raise ValueError
    else
      let dots := map (fun row => Np.dot row user_vec) (rows M) in
      let norms := map (fun row => (Np.norm env row * un)%Q) (rows M) in
      let norms := map (fun n => if Qeq_bool n 0 then eps else n) norms in
      Ok (zip_with Qdiv dots norms).

(** [max(1, int(req.limit or 50))] *)
Definition top_k (req : RecoRequest) : Z :=
  Z.max 1 (match limit req with
           | None => 50
           | Some l => if (l =? 0)%Z then 50 else l
           end).

(** The body of the [try] block after the catalog has been fetched (lines
    280-290 and 298-308, which are the same). *)
Definition rank (objs : list json) (req : RecoRequest)
  : result (list RecoResponseItem) :=
  vocab ← _build_vocab objs;
  mip ← _one_hot_matrix objs vocab;
  let '(M, ids, pop) := mip in
  usr ← _skills_to_vec (skills req) vocab;
  scores ← _cosine_scores usr M;
  if Nat.eqb (length scores) 0 then Ok []
  else
    let order := Np.lexsort [Np.neg pop; Np.neg scores] in
    let k := top_k req in
    let idx := firstn (Z.to_nat k) order in
    idx ← Np.take (zip ids scores) idx;
    Ok (map (fun p => {| id := p.1; score := p.2 |}) idx).

Definition internal_error (e : exn) : exn :=
  HTTPException 500 (u "Internal error: " ++ exn_str env e).

Definition respond {A} (r : result A) : result A :=
  match r with
  | Ok a => Ok a
  | Raise e => Raise (internal_error e)
  end.

Definition predict_communities (srv : Catalog.server) (fuel : nat) (now : Q)
  (req : RecoRequest) (st : Catalog.State)
  : option (result (list RecoResponseItem) * Catalog.State) :=
  match Catalog._get_communities env srv fuel now st with
  | None => None
  | Some (r, st) => Some (respond (objs ← r; rank objs req), st)
  end.

End WithEnv.

End Reco.

(** ** A concrete environment and sample data *)

Module Sample.

(** [exp] by its Taylor polynomial of degree 8 (exact at 0). *)
Definition exp_taylor (x : Q) : Q :=
  fold_right (fun k acc => (1 + x * acc / inject_Z (Z.of_nat k))%Q) 1%Q
             (seq 1 8).

(** Square root to twelve decimal places, rounded down. *)
Definition sqrt_floor (q : Q) : Q :=
  Qmake (Z.sqrt (Qnum q * Zpos (Qden q) * 10 ^ 24)) (Qden q * 10 ^ 12).

(** A stable [argsort], and one that returns equal elements last-first;
    both meet [Np.argsort_spec]. *)
Definition argsort_stable (v : list Q) : list nat :=
  Np.stable_sort_by Qle_bool (Np.key_of v) (seq 0 (length v)).


(** Unsigned decimal numerals. *)
Fixpoint digits (s : pystr) (acc : Z) : option Z :=
  match s with
  | [] => Some acc
  | c :: s' =>
    if ((0x30 <=? c) && (c <=? 0x39))%N
    then digits s' (10 * acc + Z.of_N (c - 0x30))%Z
    else None
  end.

Definition parse_digits (s : pystr) : option Z :=
  match s with
  | [] => None
  | _ => digits s 0%Z
  end.

Definition exn_name (e : exn) : pystr :=
  match e with
  | TypeError => u "TypeError"
  | ValueError => u "ValueError"
  | AttributeError => u "AttributeError"
  | IndexError => u "IndexError"
  | OverflowError => u "OverflowError"
  | FileNotFoundError msg => msg
  | ClientError msg => msg
  | HTTPException _ detail => detail
  end.

(** The defaults of lines 28-40, with the given page size. *)
Definition env_with (srt : list Q -> list nat) (page_limit : Z) : Env :=
  {| nfc := Norm.nfc_cyr;
     lower := Norm.lower_basic;
     fexp := exp_taylor;
     fsqrt := sqrt_floor;
     argsort := srt;
     parse_float := fun s => option_map inject_Z (parse_digits s);
     parse_int := parse_digits;
     exn_str := exn_name;
     ARTIFACTS_DIR := u "/app/artifacts";
     DEFAULT_THR := (1 # 2)%Q;
     MP_API_PAGE_LIMIT := page_limit;
     CACHE_TTL_SEC := 60%Z |}.

Definition env : Env := env_with argsort_stable 100.

(** The same with pages of two items. *)
Definition env2 : Env := env_with argsort_stable 2.

Definition jint (z : Z) : json := JNum (inject_Z z).
Definition jstrs (l : list string) : json := JList (map (fun s => JStr (u s)) l).

Definition community (i : Z) (sk : list string) (members : Z) : json :=
  JDict [(u "id", jint i); (u "skills", jstrs sk); (u "member_count", jint members)].

Definition post (i : Z) (sk : list string) (likes : Z) : json :=
  JDict [(u "id", jint i); (u "skills", jstrs sk); (u "like_count", jint likes)].

Definition catalog : list json :=
  [ community 1 ["Python"%string; "C++"%string] 10;
    community 2 ["arduino"%string; "cpp"%string] 5;
    post 3 ["js"%string; "Python"%string] 20 ].

(** The vocabulary of [catalog]. *)
Definition vocab : gmap pystr nat :=
  list_to_map [(u "python", 0); (u "c++", 1); (u "arduino", 2); (u "javascript", 3)].

(** A pipeline that gives every text the same scores, a directory that
    holds it with four labels and no thresholds, and the state after a
    load from it. *)
Definition pipe (scores : list Q) : Classifier.Pipeline :=
  {| Classifier.decision_function := fun _ => scores |}.

Definition labels4 : list pystr := [u "python"; u "c++"; u "arduino"; u "sql"].

Definition artifacts (scores : list Q) (labels : list pystr)
  (thr : option Classifier.ndarray) : Classifier.Artifacts :=
  {| Classifier.model_file := Some (pipe scores);
     Classifier.labels_file := Some labels;
     Classifier.thr_file := thr |}.

Definition no_artifacts : Classifier.Artifacts :=
  {| Classifier.model_file := None;
     Classifier.labels_file := Some labels4;
     Classifier.thr_file := None |}.

Definition loaded_state (scores : list Q) (labels : list pystr)
  : Classifier.State :=
  Classifier.set_globals (Some (pipe scores)) labels None Classifier.initial.

(** A server that holds [data] under every endpoint and honours [skip]
    and [limit]. *)
Definition serve (data : list json) : Catalog.server :=
  fun req =>
    Catalog.Replied
      {| Catalog.status := 200;
         Catalog.text := [];
         Catalog.json_body :=
           inr (JList (firstn (Z.to_nat (Catalog.limit req))
                              (skipn (Z.to_nat (Catalog.skip req)) data))) |}.

(** A server that answers every request with the given status and body. *)
Definition serve_status (code : Z) (body : string) : Catalog.server :=
  fun _ =>
    Catalog.Replied
      {| Catalog.status := code; Catalog.text := u body;
         Catalog.json_body := inl (u "not json") |}.

End Sample.
(** * Properties *)

(** String literals are kept folded in the proofs. *)
Opaque u.

(** ** Text normalization *)

Section NormalizeFacts.
Import Norm.
Variable nfc : pystr -> pystr.

Lemma is_space_fold (c : N) :
  is_space (if (c =? yo)%N then ie else c) = is_space c.
Proof.
  destruct (N.eqb_spec c yo) as [->|]; reflexivity.
Qed.

Lemma fold_yo_map (s : pystr) :
  fold_yo s = map (fun c => if (c =? yo)%N then ie else c) s.
Proof.
  unfold fold_yo, replace1. induction s as [|c s IH]; simpl; [reflexivity|].
  rewrite IH. destruct (c =? yo)%N; reflexivity.
Qed.

Lemma fold_yo_idem (s : pystr) : fold_yo (fold_yo s) = fold_yo s.
Proof.
  rewrite !fold_yo_map, map_map. apply map_ext. intros c.
  destruct (N.eqb_spec c yo) as [->|Hc]; [reflexivity|].
  destruct (N.eqb_spec c yo); congruence.
Qed.

Lemma fold_yo_lstrip (s : pystr) : fold_yo (lstrip s) = lstrip (fold_yo s).
Proof.
  rewrite !fold_yo_map. induction s as [|c s IH]; simpl; [reflexivity|].
  rewrite is_space_fold. destruct (is_space c); [exact IH|reflexivity].
Qed.

Lemma fold_yo_rstrip (s : pystr) : fold_yo (rstrip s) = rstrip (fold_yo s).
Proof.
  rewrite !fold_yo_map. induction s as [|c s IH]; simpl; [reflexivity|].
  rewrite <- IH, is_space_fold.
  destruct (rstrip s) as [|r rs]; simpl; [|reflexivity].
  destruct (is_space c); reflexivity.
Qed.

Lemma rstrip_idem (s : pystr) : rstrip (rstrip s) = rstrip s.
Proof.
  induction s as [|c s IH]; simpl; [reflexivity|].
  destruct (rstrip s) as [|r rs] eqn:E.
  - destruct (is_space c) eqn:Ec; simpl; [reflexivity|]. rewrite Ec. reflexivity.
  - change (rstrip (c :: r :: rs)) with
      (match rstrip (r :: rs) with
       | [] => if is_space c then [] else [c]
       | x :: xs => c :: x :: xs end).
    rewrite IH. reflexivity.
Qed.

Lemma lstrip_idem (s : pystr) : lstrip (lstrip s) = lstrip s.
Proof.
  induction s as [|c s IH]; simpl; [reflexivity|].
  destruct (is_space c) eqn:Ec; [exact IH|]. simpl. rewrite Ec. reflexivity.
Qed.

Lemma lstrip_rstrip_head (s : pystr) :
  lstrip s = s -> lstrip (rstrip s) = rstrip s.
Proof.
  destruct s as [|c s]; [reflexivity|]. simpl.
  destruct (is_space c) eqn:Ec.
  - intros H. exfalso.
    assert (Hl : forall t : pystr, length (lstrip t) <= length t).
    { induction t as [|x t IHt]; simpl; [lia|].
      destruct (is_space x); simpl; lia. }
    specialize (Hl s). rewrite H in Hl. simpl in Hl. lia.
  - intros _. destruct (rstrip s); simpl; rewrite Ec; reflexivity.
Qed.

Lemma strip_idem (s : pystr) : strip (strip s) = strip s.
Proof.
  unfold strip.
  rewrite (lstrip_rstrip_head (lstrip s) (lstrip_idem s)).
  apply rstrip_idem.
Qed.

Lemma fold_yo_strip (s : pystr) : fold_yo (strip s) = strip (fold_yo s).
Proof. unfold strip. rewrite fold_yo_rstrip, fold_yo_lstrip. reflexivity. Qed.

(** C9 (as amended): a second application of [_normalize_text] changes
    nothing whenever the first result is already canonically composed;
    the fold of "ё" and the trimming are idempotent and commute. *)
Theorem normalize_text_idempotent_on_composed (s : json) :
  nfc (_normalize_text nfc s) = _normalize_text nfc s ->
  _normalize_text nfc (JStr (_normalize_text nfc s)) = _normalize_text nfc s.
Proof.
  intros H. change (_normalize_text nfc (JStr (_normalize_text nfc s)))
    with (strip (fold_yo (nfc (_normalize_text nfc s)))).
  rewrite H. destruct s; try reflexivity. cbn [_normalize_text].
  rewrite fold_yo_strip, fold_yo_idem, strip_idem.
  reflexivity.
Qed.
End NormalizeFacts.

Lemma normalize_text_idempotent_on_composed_witness :
  Norm._normalize_text Norm.nfc_cyr
    (JStr (Norm._normalize_text Norm.nfc_cyr (JStr (u "  Ёлка и ёж  "))))
  = Norm._normalize_text Norm.nfc_cyr (JStr (u "  Ёлка и ёж  ")).
Proof.
  apply (normalize_text_idempotent_on_composed Norm.nfc_cyr).
  vm_compute. reflexivity.
Defined.

(** C9 (as stated) fails: for "ё" followed by a combining diaeresis the
    first pass yields "е" + U+0308, which the second pass composes and
    folds to "е". *)
Lemma normalize_text_not_idempotent :
  Norm._normalize_text Norm.nfc_cyr (JStr [0x451; 0x308]%N) = [0x435; 0x308]%N /\
  Norm._normalize_text Norm.nfc_cyr
    (JStr (Norm._normalize_text Norm.nfc_cyr (JStr [0x451; 0x308]%N))) = [0x435]%N /\
  Norm._normalize_text Norm.nfc_cyr
    (JStr (Norm._normalize_text Norm.nfc_cyr (JStr [0x451; 0x308]%N)))
  <> Norm._normalize_text Norm.nfc_cyr (JStr [0x451; 0x308]%N).
Proof.
  split; [vm_compute; reflexivity|]. split; [vm_compute; reflexivity|].
  vm_compute. discriminate.
Qed.

(** ** Sorting *)

Section StableSortFacts.
Context {K : Type} (leb : K -> K -> bool) (key : nat -> K).
Hypothesis leb_total : forall x y, leb x y = false -> leb y x = true.
Hypothesis leb_trans : forall x y z, leb x y = true -> leb y z = true -> leb x z = true.

(** The order a stable pass produces from a previous order [R]: by key,
    and among equal keys as before. *)
Definition refines (R : nat -> nat -> Prop) (i j : nat) : Prop :=
  leb (key j) (key i) = false \/
  (leb (key i) (key j) = true /\ leb (key j) (key i) = true /\ R i j).

Lemma insert_by_perm (i : nat) (l : list nat) :
  Permutation (Np.insert_by leb key i l) (i :: l).
Proof.
  induction l as [|j l IH]; simpl; [reflexivity|].
  destruct (leb (key i) (key j)); [reflexivity|].
  rewrite IH. apply perm_swap.
Qed.

Lemma stable_sort_by_perm (l : list nat) :
  Permutation (Np.stable_sort_by leb key l) l.
Proof.
  induction l as [|i l IH]; simpl; [reflexivity|].
  rewrite insert_by_perm. constructor. exact IH.
Qed.

Lemma insert_by_sorted (R : nat -> nat -> Prop) (i : nat) (l : list nat) :
  StronglySorted (refines R) l ->
  Forall (R i) l ->
  StronglySorted (refines R) (Np.insert_by leb key i l).
Proof.
  induction l as [|j l IH]; intros Hs Hr; simpl.
  - constructor; constructor.
  - inversion Hs as [|? ? Hs' Hj]; subst.
    inversion Hr as [|? ? Hij Hr']; subst.
    destruct (leb (key i) (key j)) eqn:E.
    + constructor; [exact Hs|].
      assert (Hle : forall k, k = j \/ In k l -> leb (key i) (key k) = true).
      { intros k [->|Hk]; [exact E|].
        rewrite Forall_forall in Hj. specialize (Hj k).
        assert (Hjk : refines R j k) by (apply Hj; apply list_elem_of_In; exact Hk).
        destruct Hjk as [Hlt|[Hjk _]].
        - apply leb_total in Hlt. eapply leb_trans; eassumption.
        - eapply leb_trans; eassumption. }
      apply Forall_forall. intros k Hk.
      assert (Hk' : k = j \/ In k l).
      { apply list_elem_of_In in Hk. destruct Hk as [<-|Hk]; [left|right]; auto. }
      assert (HR : R i k).
      { destruct Hk' as [->|Hk']; [exact Hij|].
        rewrite Forall_forall in Hr'. apply Hr'. apply list_elem_of_In. exact Hk'. }
      specialize (Hle k Hk').
      destruct (leb (key k) (key i)) eqn:E'.
      * right. split; [exact Hle|]. split; [exact E'|exact HR].
      * left. exact E'.
    + constructor; [apply IH; assumption|].
      apply Forall_forall. intros k Hk.
      apply list_elem_of_In in Hk.
      apply (Permutation_in _ (insert_by_perm i l)) in Hk.
      destruct Hk as [<-|Hk].
      * left. exact E.
      * rewrite Forall_forall in Hj. apply Hj. apply list_elem_of_In. exact Hk.
Qed.

Lemma stable_sort_by_sorted (R : nat -> nat -> Prop) (l : list nat) :
  StronglySorted R l ->
  StronglySorted (refines R) (Np.stable_sort_by leb key l).
Proof.
  induction l as [|i l IH]; intros Hs; simpl.
  - constructor.
  - inversion Hs as [|? ? Hs' Hi]; subst.
    apply insert_by_sorted; [apply IH; exact Hs'|].
    apply Forall_forall. intros k Hk.
    rewrite Forall_forall in Hi. apply Hi.
    apply list_elem_of_In. apply list_elem_of_In in Hk.
    eapply Permutation_in; [apply stable_sort_by_perm|exact Hk].
Qed.

(** Without an order to start from the pass still sorts by key. *)
Lemma insertion_all_sorted (l : list nat) :
  StronglySorted (refines (fun _ _ => True)) (Np.stable_sort_by leb key l).
Proof.
  induction l as [|i l IH]; cbn [Np.stable_sort_by fold_right]; [constructor|].
  apply insert_by_sorted; [exact IH|].
  apply Forall_forall. intros; exact I.
Qed.
End StableSortFacts.

Lemma Qle_bool_total (x y : Q) : Qle_bool x y = false -> Qle_bool y x = true.
Proof.
  intros H. apply Qle_bool_iff.
  destruct (Qlt_le_dec y x) as [Hlt|Hle].
  - apply Qlt_le_weak. exact Hlt.
  - apply Qle_bool_iff in Hle. congruence.
Qed.

Lemma Qle_bool_trans (x y z : Q) :
  Qle_bool x y = true -> Qle_bool y z = true -> Qle_bool x z = true.
Proof.
  rewrite !Qle_bool_iff. apply Qle_trans.
Qed.

Lemma Qle_bool_false (x y : Q) : Qle_bool x y = false <-> (y < x)%Q.
Proof.
  split.
  - intros H. destruct (Qlt_le_dec y x) as [Hlt|Hle]; [exact Hlt|].
    apply Qle_bool_iff in Hle. congruence.
  - intros H. destruct (Qle_bool x y) eqn:E; [|reflexivity].
    apply Qle_bool_iff in E. exfalso. eapply Qlt_not_le; eassumption.
Qed.

Lemma seq_sorted (a n : nat) : StronglySorted lt (seq a n).
Proof.
  revert a. induction n as [|n IH]; intros a; simpl; constructor.
  - apply IH.
  - apply Forall_forall. intros k Hk. apply list_elem_of_In in Hk.
    apply in_seq in Hk. lia.
Qed.

Lemma key_of_neg (a : list Q) (i : nat) :
  Np.key_of (Np.neg a) i = (- Np.key_of a i)%Q.
Proof.
  unfold Np.key_of, Np.neg. change 0%Q with (- 0)%Q at 1.
  apply (map_nth Qopp).
Qed.

(** The order of a ranking: by score descending, then by popularity
    descending, then by position. *)
Definition ranked_before (scores pop : list Q) (i j : nat) : Prop :=
  (Np.key_of scores j < Np.key_of scores i)%Q \/
  (Np.key_of scores i == Np.key_of scores j /\
   ((Np.key_of pop j < Np.key_of pop i)%Q \/
    (Np.key_of pop i == Np.key_of pop j /\ i < j))).

Lemma StronglySorted_impl {A} (R R' : A -> A -> Prop) (l : list A) :
  (forall x y, R x y -> R' x y) -> StronglySorted R l -> StronglySorted R' l.
Proof.
  intros HR. induction 1 as [|x l Hs IH Hx]; constructor; [exact IH|].
  eapply Forall_impl; [exact Hx|]. intros y. apply HR.
Qed.

Lemma lexsort_two (pop scores : list Q) :
  let order := Np.lexsort [Np.neg pop; Np.neg scores] in
  Permutation order (seq 0 (length scores)) /\
  StronglySorted (ranked_before scores pop) order.
Proof.
  cbn zeta.
  change (Np.lexsort [Np.neg pop; Np.neg scores]) with
    (Np.stable_sort_by Qle_bool (Np.key_of (Np.neg scores))
       (Np.stable_sort_by Qle_bool (Np.key_of (Np.neg pop))
          (seq 0 (length (Np.neg scores))))).
  replace (length (Np.neg scores)) with (length scores)
    by (unfold Np.neg; rewrite length_map; reflexivity).
  split.
  - rewrite !stable_sort_by_perm. reflexivity.
  - eapply StronglySorted_impl;
      [|apply (stable_sort_by_sorted Qle_bool _ Qle_bool_total Qle_bool_trans);
        apply (stable_sort_by_sorted Qle_bool _ Qle_bool_total Qle_bool_trans);
        apply seq_sorted].
    intros i j. unfold refines, ranked_before. rewrite !key_of_neg.
    rewrite !Qle_bool_false, !Qle_bool_iff.
    intros [H|(H1 & H2 & H)].
    + left. apply Qopp_lt_compat in H. rewrite !Qopp_involutive in H. exact H.
    + right. apply Qopp_le_compat in H1, H2. rewrite !Qopp_involutive in H1, H2.
      split; [apply Qle_antisym; assumption|].
      destruct H as [H|(H3 & H4 & H)].
      * left. apply Qopp_lt_compat in H. rewrite !Qopp_involutive in H. exact H.
      * right. apply Qopp_le_compat in H3, H4. rewrite !Qopp_involutive in H3, H4.
        split; [apply Qle_antisym; assumption|exact H].
Qed.

(** ** Index arrays *)

Lemma getitem_lookup {A} (a : list A) (i : nat) (x : A) :
  Np.getitem a i = Ok x <-> a !! i = Some x.
Proof.
  unfold Np.getitem. destruct (a !! i); split; congruence.
Qed.

Lemma take_map {A} (d : A) (a : list A) (idx : list nat) :
  Forall (fun i => i < length a) idx ->
  Np.take a idx = Ok (map (fun i => nth i a d) idx).
Proof.
  induction idx as [|i idx IH]; intros H; cbn [Np.take map]; [reflexivity|].
  inversion H as [|? ? Hi Hidx]; subst.
  destruct (lookup_lt_is_Some_2 a i Hi) as (x & Hx).
  unfold Np.getitem. rewrite Hx. cbn [mbind result_bind rbind].
  rewrite (IH Hidx). cbn [mbind result_bind rbind].
  rewrite (nth_lookup_Some a i d x Hx). reflexivity.
Qed.

Lemma where_from_spec (mask : list bool) :
  forall s i, i ∈ Np.where_from s mask <->
              exists k, i = s + k /\ mask !! k = Some true.
Proof.
  induction mask as [|b mask IH]; intros s i; cbn [Np.where_from].
  - split; [intros H; inversion H|intros (k & _ & H); discriminate].
  - assert (Htail : i ∈ Np.where_from (S s) mask <->
                    exists k, i = s + S k /\ mask !! k = Some true).
    { rewrite IH. split; intros (k & -> & H); exists k; split; auto; lia. }
    destruct b.
    + rewrite elem_of_cons, Htail. split.
      * intros [->|(k & -> & H)]; [exists 0|exists (S k)]; split; auto; lia.
      * intros ([|k] & -> & H); [left; lia|right; eauto].
    + rewrite Htail. split.
      * intros (k & -> & H). exists (S k). auto.
      * intros ([|k] & -> & H); [discriminate|eauto].
Qed.

Lemma where_from_sorted (mask : list bool) :
  forall s, StronglySorted lt (Np.where_from s mask).
Proof.
  induction mask as [|b mask IH]; intros s; cbn [Np.where_from]; [constructor|].
  destruct b; [|apply IH].
  constructor; [apply IH|].
  apply Forall_forall. intros i Hi. apply where_from_spec in Hi.
  destruct Hi as (k & -> & _). lia.
Qed.

Lemma where_spec (mask : list bool) (i : nat) :
  i ∈ Np.where_ mask <-> mask !! i = Some true.
Proof.
  unfold Np.where_. rewrite where_from_spec. split.
  - intros (k & -> & H). exact H.
  - intros H. exists i. auto.
Qed.

Lemma sorted_lt_NoDup (l : list nat) : StronglySorted lt l -> NoDup l.
Proof.
  induction 1 as [|i l Hs IH Hi]; constructor; [|exact IH].
  intros Hin. rewrite Forall_forall in Hi. specialize (Hi i Hin). lia.
Qed.

Lemma ge_same_length (a b : list Q) :
  length a = length b ->
  Np.ge a b = Ok (zip_with (fun x y => Qle_bool y x) a b).
Proof.
  intros H. unfold Np.ge. rewrite H, Nat.eqb_refl. reflexivity.
Qed.

Lemma map_nth_seq {A} (d : A) (l : list A) :
  map (fun i => nth i l d) (seq 0 (length l)) = l.
Proof.
  induction l as [|x l IH]; cbn [length seq map nth]; [reflexivity|].
  f_equal. rewrite <- seq_shift, map_map. exact IH.
Qed.

Lemma nth_map_lookup {A B} (f : A -> B) (d : B) (l : list A) (i : nat) (x : A) :
  l !! i = Some x -> nth i (map f l) d = f x.
Proof.
  intros H. apply nth_lookup_Some with (d := d).
  rewrite list_lookup_fmap, H. reflexivity.
Qed.

Lemma lookup_repeat {A} (x y : A) (n i : nat) :
  repeat x n !! i = Some y <-> y = x /\ i < n.
Proof.
  revert i. induction n as [|n IH]; intros i; cbn [repeat].
  - split; [discriminate|lia].
  - destruct i as [|i]; cbn.
    + split; [intros [= ->]; split; [reflexivity|lia]|intros [-> _]; reflexivity].
    + rewrite IH. split; intros [H1 H2]; split; auto; lia.
Qed.

(** ** Vocabulary and one-hot vectors *)

(** Reduction of the bind of [result] only. *)
Ltac rsimpl := cbn [mbind result_bind rbind].
Tactic Notation "rsimpl" "in" hyp(H) := cbn [mbind result_bind rbind] in H.

Section VocabFacts.
Variable env : Env.

(** The tokens of a vocabulary are numbered 0 .. size-1, one to one. *)
Definition vocab_ok (v : gmap pystr nat) : Prop :=
  (forall tok j, v !! tok = Some j -> j < size v) /\
  (forall t1 t2 j, v !! t1 = Some j -> v !! t2 = Some j -> t1 = t2) /\
  (forall j, j < size v -> exists tok, v !! tok = Some j).

Lemma vocab_empty_ok : vocab_ok ∅.
Proof.
  repeat split.
  - intros tok j H. rewrite lookup_empty in H. discriminate.
  - intros t1 t2 j H. rewrite lookup_empty in H. discriminate.
  - intros j H. rewrite map_size_empty in H. lia.
Qed.

Lemma vocab_add_fresh (v : gmap pystr nat) (tok : pystr) :
  v !! tok = None -> Reco.vocab_add v tok !! tok = Some (size v).
Proof.
  intros H. unfold Reco.vocab_add. rewrite H. apply lookup_insert_eq.
Qed.

Lemma vocab_add_ok (v : gmap pystr nat) (tok : pystr) :
  vocab_ok v -> vocab_ok (Reco.vocab_add v tok).
Proof.
  intros (Hlt & Hinj & Hsurj). unfold Reco.vocab_add.
  destruct (v !! tok) as [j0|] eqn:E; [repeat split; assumption|].
  repeat split.
  - intros t j H. rewrite map_size_insert_None by exact E.
    apply lookup_insert_Some in H. destruct H as [[_ <-]|[_ H]]; [lia|].
    apply Hlt in H. lia.
  - intros t1 t2 j H1 H2.
    apply lookup_insert_Some in H1. apply lookup_insert_Some in H2.
    destruct H1 as [[<- <-]|[Hn1 H1]], H2 as [[<- H2]|[Hn2 H2]].
    + reflexivity.
    + apply Hlt in H2. lia.
    + apply Hlt in H1. lia.
    + eapply Hinj; eassumption.
  - intros j H. rewrite map_size_insert_None in H by exact E.
    destruct (decide (j = size v)) as [->|Hne].
    + exists tok. apply lookup_insert_eq.
    + destruct (Hsurj j) as [t Ht]; [lia|].
      exists t. rewrite lookup_insert_ne; [exact Ht|].
      intros <-. congruence.
Qed.

Lemma fold_vocab_add_ok (toks : list pystr) (v : gmap pystr nat) :
  vocab_ok v -> vocab_ok (fold_left Reco.vocab_add toks v).
Proof.
  revert v. induction toks as [|t toks IH]; intros v Hv; simpl; [exact Hv|].
  apply IH. apply vocab_add_ok. exact Hv.
Qed.

Lemma build_vocab_from_ok (objs : list json) (v v' : gmap pystr nat) :
  vocab_ok v -> Reco.build_vocab_from env v objs = Ok v' -> vocab_ok v'.
Proof.
  revert v. induction objs as [|obj objs IH]; intros v Hv H; simpl in H.
  - injection H as <-. exact Hv.
  - destruct (obj_get obj (u "skills") (JList [])) as [sk|e]; [|discriminate].
    rsimpl in H.
    destruct (Reco.norm_list env sk) as [toks|e]; [|discriminate].
    rsimpl in H. eapply IH; [|exact H]. apply fold_vocab_add_ok. exact Hv.
Qed.

Lemma set_one_ok (j : nat) (v : list Q) :
  j < length v -> exists v', Reco.set_one j v = Ok v' /\ length v' = length v.
Proof.
  intros H. unfold Reco.set_one.
  destruct (Nat.ltb_spec j (length v)); [|lia].
  eexists. split; [reflexivity|]. apply length_insert.
Qed.

Lemma one_hot_step_ok (vocab : gmap pystr nat) (hints : list pystr)
  (L : nat) (v : list Q) (tok : pystr) :
  (forall t j, vocab !! t = Some j -> j < L) ->
  length v = L ->
  exists v', Reco.one_hot_step vocab hints (Ok v) tok = Ok v' /\ length v' = L.
Proof.
  intros Hb Hv. unfold Reco.one_hot_step. rsimpl.
  assert (H1 : exists v1,
             match vocab !! tok with
             | Some j => Reco.set_one j v
             | None => Ok v
             end = Ok v1 /\ length v1 = L).
  { destruct (vocab !! tok) as [j|] eqn:E; [|eauto].
    destruct (set_one_ok j v) as (v1 & -> & Hl); [rewrite Hv; eauto|].
    exists v1. split; [reflexivity|congruence]. }
  destruct H1 as (v1 & -> & Hl1). rsimpl.
  destruct (bool_decide (tok ∈ hints)); [|eauto].
  destruct (vocab !! u "c++") as [j|] eqn:E; [|eauto].
  destruct (set_one_ok j v1) as (v2 & -> & Hl); [rewrite Hl1; eauto|].
  exists v2. split; [reflexivity|congruence].
Qed.

Lemma one_hot_ok (vocab : gmap pystr nat) (hints : list pystr)
  (L : nat) (toks : list pystr) :
  (forall t j, vocab !! t = Some j -> j < L) ->
  exists v, Reco.one_hot vocab hints L toks = Ok v /\ length v = L.
Proof.
  intros Hb. unfold Reco.one_hot.
  assert (H : forall (toks : list pystr) (v : list Q), length v = L ->
             exists v', fold_left (Reco.one_hot_step vocab hints) toks (Ok v) = Ok v'
                        /\ length v' = L).
  { clear toks. induction toks as [|t toks IH]; intros v Hv; cbn [fold_left]; [eauto|].
    destruct (one_hot_step_ok vocab hints L v t Hb Hv) as (v1 & -> & Hl1).
    apply IH. exact Hl1. }
  apply H. apply repeat_length.
Qed.

Lemma norm_list_of_strings (ss : list pystr) :
  exists toks, Reco.norm_list env (JList (map JStr ss)) = Ok toks.
Proof.
  unfold Reco.norm_list, Norm._norm_list, py_or.
  destruct (truthy (JList (map JStr ss))); rsimpl; eauto.
Qed.

Lemma skills_to_vec_ok (vocab : gmap pystr nat) (skills : list pystr) :
  (forall t j, vocab !! t = Some j -> j < size vocab) ->
  exists v, Reco._skills_to_vec env skills vocab = Ok v /\ length v = size vocab.
Proof.
  intros Hb. unfold Reco._skills_to_vec.
  destruct (norm_list_of_strings skills) as (toks & ->). rsimpl.
  apply one_hot_ok. exact Hb.
Qed.

Lemma obj_get_error (obj : json) (k : pystr) (d : json) (e : exn) :
  obj_get obj k d = Raise e -> e = AttributeError.
Proof. destruct obj; cbn [obj_get]; congruence. Qed.

Lemma py_float_error (v : json) (e : exn) :
  Reco.py_float env v = Raise e -> e = TypeError \/ e = ValueError.
Proof.
  destruct v; cbn [Reco.py_float]; try (intros [= <-]; auto); try discriminate.
  destruct (parse_float env s); [discriminate|]. intros [= <-]. auto.
Qed.

Lemma py_int_error (v : json) (e : exn) :
  Reco.py_int env v = Raise e -> e = TypeError \/ e = ValueError.
Proof.
  destruct v; cbn [Reco.py_int]; try (intros [= <-]; auto); try discriminate.
  destruct (parse_int env s); [discriminate|]. intros [= <-]. auto.
Qed.

Lemma norm_list_error (xs : json) (e : exn) :
  Reco.norm_list env xs = Raise e -> e = TypeError.
Proof.
  unfold Reco.norm_list, Norm._norm_list.
  destruct (Norm.py_iter (py_or xs (JList []))) as [l|e'] eqn:E; rsimpl; [discriminate|].
  intros [= <-]. unfold Norm.py_iter in E.
  destruct (py_or xs (JList [])); congruence.
Qed.

Lemma popularity_error (obj : json) (e : exn) :
  Reco.popularity env obj = Raise e -> e <> IndexError.
Proof.
  unfold Reco.popularity.
  destruct (obj_get obj (u "like_count") (JNum 0)) as [lc|e1] eqn:E1; rsimpl.
  2:{ intros [= <-]. apply obj_get_error in E1. congruence. }
  destruct (obj_get obj (u "member_count") lc) as [mc|e2] eqn:E2; rsimpl.
  2:{ intros [= <-]. apply obj_get_error in E2. congruence. }
  intros H. apply py_float_error in H. destruct H; congruence.
Qed.

Lemma one_hot_row_ok (vocab : gmap pystr nat) (obj : json) :
  (forall t j, vocab !! t = Some j -> j < size vocab) ->
  match Reco.one_hot_row env vocab obj with
  | Ok (row, _, _) => length row = size vocab
  | Raise e => e <> IndexError
  end.
Proof.
  intros Hb. unfold Reco.one_hot_row.
  destruct (obj_get obj (u "id") (JNum 0)) as [i|e] eqn:E1; rsimpl.
  2:{ apply obj_get_error in E1. congruence. }
  destruct (Reco.py_int env i) as [z|e] eqn:E2; rsimpl.
  2:{ apply py_int_error in E2. destruct E2; congruence. }
  unfold Reco.to_int64.
  destruct ((- 2 ^ 63 <=? z)%Z && (z <? 2 ^ 63)%Z); rsimpl; [|congruence].
  destruct (Reco.popularity env obj) as [p|e] eqn:E3; rsimpl.
  2:{ eapply popularity_error; eassumption. }
  destruct (obj_get obj (u "skills") (JList [])) as [sk|e] eqn:E4; rsimpl.
  2:{ apply obj_get_error in E4. congruence. }
  destruct (Reco.norm_list env sk) as [toks|e] eqn:E5; rsimpl.
  2:{ apply norm_list_error in E5. congruence. }
  destruct (one_hot_ok vocab [u "arduino"] (size vocab) toks Hb) as (v & -> & Hl).
  rsimpl. exact Hl.
Qed.

Lemma one_hot_rows_ok (vocab : gmap pystr nat) (objs : list json) :
  (forall t j, vocab !! t = Some j -> j < size vocab) ->
  match Reco.one_hot_rows env vocab objs with
  | Ok (rs, ids, pop) =>
    Forall (fun row => length row = size vocab) rs /\
    length rs = length objs /\ length ids = length objs /\
    length pop = length objs
  | Raise e => e <> IndexError
  end.
Proof.
  intros Hb. induction objs as [|obj objs IH]; cbn [Reco.one_hot_rows].
  - repeat split. constructor.
  - pose proof (one_hot_row_ok vocab obj Hb) as Hrow.
    destruct (Reco.one_hot_row env vocab obj) as [[[row i] p]|e]; rsimpl; [|exact Hrow].
    destruct (Reco.one_hot_rows env vocab objs) as [[[rs ids] pop]|e]; rsimpl; [|exact IH].
    destruct IH as (Hrs & H1 & H2 & H3). cbn [fst snd length].
    repeat split; [constructor; assumption|lia..].
Qed.

Lemma one_hot_matrix_ok (vocab : gmap pystr nat) (objs : list json) :
  (forall t j, vocab !! t = Some j -> j < size vocab) ->
  match Reco._one_hot_matrix env objs vocab with
  | Ok (M, ids, pop) =>
    Forall (fun row => length row = Reco.ncols M) (Reco.rows M) /\
    length (Reco.rows M) = Reco.nrows M /\
    length ids = Reco.nrows M /\ length pop = Reco.nrows M /\
    (Reco.msize M <> 0 ->
     Reco.nrows M = length objs /\ Reco.ncols M = size vocab)
  | Raise e => e <> IndexError
  end.
Proof.
  intros Hb. unfold Reco._one_hot_matrix.
  destruct (Nat.eqb (length objs) 0 || Nat.eqb (size vocab) 0) eqn:E.
  - cbn [Reco.rows Reco.nrows Reco.ncols length].
    split; [constructor|]. split; [reflexivity|]. split; [reflexivity|].
    split; [reflexivity|]. unfold Reco.msize. cbn [Reco.nrows]. lia.
  - pose proof (one_hot_rows_ok vocab objs Hb) as H.
    destruct (Reco.one_hot_rows env vocab objs) as [[[rs ids] pop]|e]; rsimpl; [|exact H].
    destruct H as (Hrs & H1 & H2 & H3).
    cbn [fst snd Reco.rows Reco.nrows Reco.ncols]. repeat split; assumption.
Qed.

(** C10: the vocabulary built from a catalog numbers its tokens one to one
    with 0 .. size-1, a new token taking the current size as its index; so
    the query vector and every row of the item matrix are built without an
    out-of-range write and have the length of the vocabulary. *)
Theorem vocab_indices_in_bounds (objs : list json) (vocab : gmap pystr nat) :
  Reco._build_vocab env objs = Ok vocab ->
  (forall tok j, vocab !! tok = Some j -> j < size vocab) /\
  (forall t1 t2 j, vocab !! t1 = Some j -> vocab !! t2 = Some j -> t1 = t2) /\
  (forall j, j < size vocab -> exists tok, vocab !! tok = Some j) /\
  (forall (v : gmap pystr nat) tok,
      v !! tok = None -> Reco.vocab_add v tok !! tok = Some (size v)) /\
  (forall skills, exists vec,
      Reco._skills_to_vec env skills vocab = Ok vec /\ length vec = size vocab) /\
  (forall objs', Reco._one_hot_matrix env objs' vocab <> Raise IndexError) /\
  (forall objs' M ids pop,
      Reco._one_hot_matrix env objs' vocab = Ok (M, ids, pop) ->
      Forall (fun row => length row = Reco.ncols M) (Reco.rows M) /\
      (Reco.msize M <> 0 -> Reco.ncols M = size vocab)).
Proof.
  intros H. apply build_vocab_from_ok in H; [|apply vocab_empty_ok].
  destruct H as (Hlt & Hinj & Hsurj).
  split; [exact Hlt|]. split; [exact Hinj|]. split; [exact Hsurj|].
  split; [apply vocab_add_fresh|].
  split; [intros skills; apply skills_to_vec_ok; exact Hlt|].
  split.
  - intros objs' Heq. pose proof (one_hot_matrix_ok vocab objs' Hlt) as Hm.
    rewrite Heq in Hm. congruence.
  - intros objs' M ids pop Heq.
    pose proof (one_hot_matrix_ok vocab objs' Hlt) as Hm.
    rewrite Heq in Hm. destruct Hm as (Hr & _ & _ & _ & Hs).
    split; [exact Hr|]. intros Hne. apply Hs. exact Hne.
Qed.
End VocabFacts.

Example norm_list_dedup :
  Reco.norm_list Sample.env (Sample.jstrs ["C++"%string; "cpp"%string; "Python"%string])
  = Ok [u "c++"; u "python"].
Proof. vm_compute. reflexivity. Qed.

Lemma vocab_indices_in_bounds_witness :
  Reco._build_vocab Sample.env Sample.catalog = Ok Sample.vocab /\
  size Sample.vocab = 4 /\
  forall skills, exists vec,
      Reco._skills_to_vec Sample.env skills Sample.vocab = Ok vec /\
      length vec = size Sample.vocab.
Proof.
  assert (H : Reco._build_vocab Sample.env Sample.catalog = Ok Sample.vocab)
    by (vm_compute; reflexivity).
  split; [exact H|]. split; [vm_compute; reflexivity|].
  apply (vocab_indices_in_bounds Sample.env Sample.catalog Sample.vocab H).
Defined.

(** ** Popularity *)





(** ** Paginated fetch *)

Section FetchFacts.
Variable env : Env.
Variable srv : Catalog.server.

(** The request for page [k]. *)
Definition page_request (endpoint : pystr) (k : nat) : Catalog.request :=
  {| Catalog.endpoint := endpoint;
     Catalog.skip := Z.of_nat k * MP_API_PAGE_LIMIT env;
     Catalog.limit := MP_API_PAGE_LIMIT env |}.

(** A reply that makes the loop go on: status 200 and a list of at least
    [MP_API_PAGE_LIMIT] items. *)
Definition full_page (r : Catalog.reply) (page : list json) : Prop :=
  exists resp, r = Catalog.Replied resp /\
               Catalog.status resp = 200%Z /\
               Catalog.json_body resp = inr (JList page) /\
               (MP_API_PAGE_LIMIT env <= Z.of_nat (length page))%Z.

Definition upstream_error (s : Z) (body : pystr) : exn :=
  HTTPException s (u "API error: " ++ body).

Definition send_all (reqs : list Catalog.request) (st : Catalog.State)
  : Catalog.State :=
  fold_left (fun s r => Catalog.send r s) reqs st.

Lemma send_all_app (a b : list Catalog.request) (st : Catalog.State) :
  send_all (a ++ b) st = send_all b (send_all a st).
Proof. apply fold_left_app. Qed.


Lemma get_all_loop_full (endpoint : pystr) (pages : list (list json)) :
  forall (k0 : nat) (acc : list json) (st : Catalog.State) (fuel : nat),
    (forall k page, pages !! k = Some page ->
                    full_page (srv (page_request endpoint (k0 + k))) page) ->
    Catalog.get_all_loop env srv (length pages + fuel) endpoint
      (Z.of_nat k0 * MP_API_PAGE_LIMIT env) acc st
    = Catalog.get_all_loop env srv fuel endpoint
        (Z.of_nat (k0 + length pages) * MP_API_PAGE_LIMIT env)
        (acc ++ concat pages)
        (send_all (map (page_request endpoint) (seq k0 (length pages))) st).
Proof.
  induction pages as [|page pages IH]; intros k0 acc st fuel Hfull.
  - cbn [length concat seq map send_all fold_left Nat.add].
    rewrite app_nil_r, Nat.add_0_r. reflexivity.
  - cbn [length Nat.add Catalog.get_all_loop].
    destruct (Hfull 0 page eq_refl) as (resp & Hr & Hs & Hj & Hl).
    rewrite Nat.add_0_r in Hr.
    change {| Catalog.endpoint := endpoint;
              Catalog.skip := Z.of_nat k0 * MP_API_PAGE_LIMIT env;
              Catalog.limit := MP_API_PAGE_LIMIT env |}
      with (page_request endpoint k0).
    rewrite Hr, Hs, Hj. cbn [Z.eqb Pos.eqb negb].
    destruct (Z.ltb_spec (Z.of_nat (length page)) (MP_API_PAGE_LIMIT env)); [lia|].
    replace (Z.of_nat k0 * MP_API_PAGE_LIMIT env + MP_API_PAGE_LIMIT env)%Z
      with (Z.of_nat (S k0) * MP_API_PAGE_LIMIT env)%Z by lia.
    rewrite IH.
    + cbn [concat seq map send_all fold_left].
      rewrite <- app_assoc. replace (S k0 + length pages) with (k0 + S (length pages)) by lia.
      reflexivity.
    + intros k p Hk. replace (S k0 + k) with (k0 + S k) by lia.
      apply Hfull. exact Hk.
Qed.

Lemma get_all_loop_out_of_fuel (endpoint : pystr) (pages : list (list json)) :
  forall (k0 : nat) (acc : list json) (st : Catalog.State) (fuel : nat),
    (forall k page, pages !! k = Some page ->
                    full_page (srv (page_request endpoint (k0 + k))) page) ->
    fuel <= length pages ->
    Catalog.get_all_loop env srv fuel endpoint
      (Z.of_nat k0 * MP_API_PAGE_LIMIT env) acc st = None.
Proof.
  intros k0 acc st fuel Hfull Hle.
  rewrite <- (firstn_skipn fuel pages) in Hfull.
  assert (Hlen : length (firstn fuel pages) = fuel)
    by (rewrite length_firstn; lia).
  pose proof (get_all_loop_full endpoint (firstn fuel pages) k0 acc st 0) as H.
  rewrite Hlen, Nat.add_0_r in H. rewrite H; [reflexivity|].
  intros k page Hk. apply Hfull. rewrite lookup_app_l; [exact Hk|].
  apply lookup_lt_Some in Hk. exact Hk.
Qed.

(** A catalog that always answers with a full page keeps the loop going
    for ever. *)
Lemma get_all_never_stops (endpoint : pystr) (st : Catalog.State) :
  (forall k, exists page, full_page (srv (page_request endpoint k)) page) ->
  forall fuel, Catalog._get_all env srv fuel endpoint st = None.
Proof.
  intros Hall fuel. unfold Catalog._get_all.
  assert (Hp : forall n, exists pages : list (list json), length pages = n /\
             forall k page, pages !! k = Some page ->
                            full_page (srv (page_request endpoint k)) page).
  { induction n as [|n (pages & Hlen & Hpages)].
    - exists []. split; [reflexivity|]. intros k page H. discriminate.
    - destruct (Hall n) as (page & Hpage).
      exists (pages ++ [page]). split; [rewrite length_app; cbn; lia|].
      intros k p Hk. apply lookup_app_Some in Hk.
      destruct Hk as [Hk|[Hge Hk]]; [apply Hpages; exact Hk|].
      rewrite Hlen in *. destruct (k - n) as [|m] eqn:E; [|destruct m; discriminate].
      injection Hk as <-. replace k with n by lia. exact Hpage. }
  destruct (Hp fuel) as (pages & Hlen & Hpages).
  apply (get_all_loop_out_of_fuel endpoint pages 0); [exact Hpages|lia].
Qed.

(** What the iteration at a page that is not full leaves the loop with. *)
Definition stop_outcome (r : Catalog.reply) (acc : list json)
  : option (result (list json)) :=
  match r with
  | Catalog.Failed msg => Some (Raise (ClientError msg))
  | Catalog.Replied resp =>
    if negb (Catalog.status resp =? 200)%Z
    then Some (Raise (upstream_error (Catalog.status resp) (Catalog.text resp)))
    else match Catalog.json_body resp with
         | inl e => Some (Raise (HTTPException 500 (u "Invalid json from API: " ++ e)))
         | inr (JList page) =>
           if (Z.of_nat (length page) <? MP_API_PAGE_LIMIT env)%Z
           then Some (Ok (acc ++ page)) else None
         | inr _ => Some (Ok acc)
         end
  end.

Lemma get_all_loop_stop (endpoint : pystr) (k : nat) (acc : list json)
  (st : Catalog.State) (fuel : nat) (r : result (list json)) :
  stop_outcome (srv (page_request endpoint k)) acc = Some r ->
  Catalog.get_all_loop env srv (S fuel) endpoint
    (Z.of_nat k * MP_API_PAGE_LIMIT env) acc st
  = Some (r, Catalog.send (page_request endpoint k) st).
Proof.
  cbn [Catalog.get_all_loop].
  change {| Catalog.endpoint := endpoint;
            Catalog.skip := Z.of_nat k * MP_API_PAGE_LIMIT env;
            Catalog.limit := MP_API_PAGE_LIMIT env |}
    with (page_request endpoint k).
  unfold stop_outcome, upstream_error.
  destruct (srv (page_request endpoint k)) as [msg|resp]; [congruence|].
  destruct (negb (Catalog.status resp =? 200)%Z); [congruence|].
  destruct (Catalog.json_body resp) as [e|[]]; try congruence.
  destruct (Z.of_nat (length l) <? MP_API_PAGE_LIMIT env)%Z; congruence.
Qed.





End FetchFacts.




(** ** The catalog cache *)

Section CacheFacts.
Variable env : Env.

(** [now - slot["ts"] > CACHE_TTL_SEC] *)
Definition stale (now : Q) (slot : Catalog.cache_slot) : Prop :=
  (inject_Z (CACHE_TTL_SEC env) < now - Catalog.ts slot)%Q.

Lemma stale_test (now : Q) (slot : Catalog.cache_slot) :
  negb (Qle_bool (now - Catalog.ts slot) (inject_Z (CACHE_TTL_SEC env))) = true
  <-> stale now slot.
Proof.
  unfold stale. rewrite negb_true_iff. apply Qle_bool_false.
Qed.

Lemma fresh_test (now : Q) (slot : Catalog.cache_slot) :
  negb (Qle_bool (now - Catalog.ts slot) (inject_Z (CACHE_TTL_SEC env))) = false
  <-> ~ stale now slot.
Proof.
  rewrite <- stale_test. destruct (negb _); split; congruence.
Qed.

Lemma get_all_loop_fields (srv : Catalog.server) (fuel : nat) :
  forall endpoint skip acc st r st',
    Catalog.get_all_loop env srv fuel endpoint skip acc st = Some (r, st') ->
    Catalog._cache_comm st' = Catalog._cache_comm st /\
    Catalog._cache_posts st' = Catalog._cache_posts st /\
    Catalog.fetches st' = Catalog.fetches st.
Proof.
  induction fuel as [|fuel IH]; intros endpoint skip acc st r st' H;
    cbn [Catalog.get_all_loop] in H; [discriminate|].
  destruct (srv _) as [msg|resp].
  { injection H as <- <-. repeat split. }
  destruct (negb (Catalog.status resp =? 200)%Z).
  { injection H as <- <-. repeat split. }
  destruct (Catalog.json_body resp) as [e|j].
  { injection H as <- <-. repeat split. }
  destruct j; try (injection H as <- <-; repeat split).
  destruct (Z.of_nat (length l) <? MP_API_PAGE_LIMIT env)%Z.
  { injection H as <- <-. repeat split. }
  apply IH in H. exact H.
Qed.

Lemma get_all_fields (srv : Catalog.server) (fuel : nat) (endpoint : pystr)
  (st : Catalog.State) (r : result (list json)) (st' : Catalog.State) :
  Catalog._get_all env srv fuel endpoint st = Some (r, st') ->
  Catalog._cache_comm st' = Catalog._cache_comm st /\
  Catalog._cache_posts st' = Catalog._cache_posts st /\
  Catalog.fetches st' = Catalog.fetches st ++ [endpoint].
Proof.
  unfold Catalog._get_all. intros H. apply get_all_loop_fields in H. exact H.
Qed.

(** What a cached getter promises, for the slot it serves and the other
    slot it leaves alone. *)
Record cached_getter
  (get : Catalog.server -> nat -> Q -> Catalog.State ->
         option (result (list json) * Catalog.State))
  (slot other : Catalog.State -> Catalog.cache_slot)
  (endpoint : pystr) : Prop := {
  (** within the TTL the snapshot is returned and nothing is fetched *)
  getter_fresh :
    forall srv fuel now st,
      ~ stale now (slot st) ->
      get srv fuel now st = Some (Ok (Catalog.items (slot st)), st);
  (** past the TTL the getter is one call of [_get_all]; its items and the
      time of the call replace the slot when it succeeds, and the state
      keeps both slots when it raises *)
  getter_stale :
    forall srv fuel now st r st',
      stale now (slot st) ->
      get srv fuel now st = Some (r, st') ->
      Catalog.fetches st' = Catalog.fetches st ++ [endpoint] /\
      other st' = other st /\
      exists st1,
        Catalog._get_all env srv fuel endpoint st = Some (r, st1) /\
        match r with
        | Ok fetched => slot st' = {| Catalog.ts := now; Catalog.items := fetched |}
        | Raise _ => st' = st1 /\ slot st' = slot st
        end;
  (** past the TTL the getter returns exactly when [_get_all] does *)
  getter_returns :
    forall srv fuel now st,
      stale now (slot st) ->
      (get srv fuel now st = None <->
       Catalog._get_all env srv fuel endpoint st = None);
  (** past the TTL a fetch that raises makes the getter raise the same *)
  getter_raises :
    forall srv fuel now st e st1,
      stale now (slot st) ->
      Catalog._get_all env srv fuel endpoint st = Some (Raise e, st1) ->
      get srv fuel now st = Some (Raise e, st1);
  (** the slot of a process that has not fetched yet is stale at any time
      beyond the TTL *)
  getter_first :
    forall now, (inject_Z (CACHE_TTL_SEC env) < now)%Q ->
                stale now (slot Catalog.initial);
  (** a successful refresh followed by a call within the TTL: one fetch
      in all, and the same snapshot *)
  getter_reuse :
    forall srv fuel now st fetched st' srv' fuel' now',
      stale now (slot st) ->
      get srv fuel now st = Some (Ok fetched, st') ->
      (now' - now <= inject_Z (CACHE_TTL_SEC env))%Q ->
      get srv' fuel' now' st' = Some (Ok fetched, st') /\
      Catalog.fetches st' = Catalog.fetches st ++ [endpoint]
}.

Lemma get_communities_stale (srv : Catalog.server) (fuel : nat) (now : Q)
  (st : Catalog.State) :
  stale now (Catalog._cache_comm st) ->
  Catalog._get_communities env srv fuel now st
  = match Catalog._get_all env srv fuel (u "communities/") st with
    | None => None
    | Some (Raise e, st1) => Some (Raise e, st1)
    | Some (Ok fetched, st1) =>
      Some (Ok fetched,
            Catalog.set_comm {| Catalog.ts := now; Catalog.items := fetched |} st1)
    end.
Proof.
  intros H. apply stale_test in H. unfold Catalog._get_communities.
  rewrite H. destruct (Catalog._get_all _ _ _ _ _) as [[[fetched|e] st1]|];
    reflexivity.
Qed.

Lemma get_posts_stale (srv : Catalog.server) (fuel : nat) (now : Q)
  (st : Catalog.State) :
  stale now (Catalog._cache_posts st) ->
  Catalog._get_posts env srv fuel now st
  = match Catalog._get_all env srv fuel (u "posts/") st with
    | None => None
    | Some (Raise e, st1) => Some (Raise e, st1)
    | Some (Ok fetched, st1) =>
      Some (Ok fetched,
            Catalog.set_posts {| Catalog.ts := now; Catalog.items := fetched |} st1)
    end.
Proof.
  intros H. apply stale_test in H. unfold Catalog._get_posts.
  rewrite H. destruct (Catalog._get_all _ _ _ _ _) as [[[fetched|e] st1]|];
    reflexivity.
Qed.

Lemma fresh_after_refresh (now now' : Q) (fetched : list json) :
  (now' - now <= inject_Z (CACHE_TTL_SEC env))%Q ->
  ~ stale now' {| Catalog.ts := now; Catalog.items := fetched |}.
Proof.
  unfold stale. cbn [Catalog.ts]. intros H1 H2.
  eapply Qlt_not_le; eassumption.
Qed.

Lemma initial_stale (now : Q) :
  (inject_Z (CACHE_TTL_SEC env) < now)%Q ->
  stale now {| Catalog.ts := 0; Catalog.items := [] |}.
Proof.
  unfold stale. cbn [Catalog.ts]. intros H.
  eapply Qlt_le_trans; [exact H|].
  unfold Qminus. rewrite Qplus_0_r. apply Qle_refl.
Qed.

Ltac cached_getter_tac get_stale getter :=
  constructor;
  [ intros srv fuel now st H; apply fresh_test in H;
    unfold getter; rewrite H; reflexivity
  | intros srv fuel now st r st' Hs H; rewrite (get_stale srv fuel now st Hs) in H;
    destruct (Catalog._get_all _ _ _ _ _) as [[[fetched|e] st1]|] eqn:E;
    [ | | discriminate ];
    injection H as <- <-; apply get_all_fields in E as E';
    destruct E' as (Hc & Hp & Hf);
    cbn [Catalog.set_comm Catalog.set_posts Catalog.fetches
         Catalog._cache_comm Catalog._cache_posts];
    (split; [exact Hf|]); (split; [assumption|]);
    eexists; (split; [reflexivity|]); try reflexivity; (split; [reflexivity|assumption])
  | intros srv fuel now st Hs; rewrite (get_stale srv fuel now st Hs);
    destruct (Catalog._get_all _ _ _ _ _) as [[[fetched|e] st1]|];
    split; congruence
  | intros srv fuel now st e st1 Hs H; rewrite (get_stale srv fuel now st Hs);
    rewrite H; reflexivity
  | intros now H; apply initial_stale; exact H
  | intros srv fuel now st fetched st' srv' fuel' now' Hs H Hw;
    rewrite (get_stale srv fuel now st Hs) in H;
    destruct (Catalog._get_all _ _ _ _ _) as [[[fetched0|e] st1]|] eqn:E;
    [ | discriminate | discriminate ];
    injection H as <- <-; apply get_all_fields in E;
    destruct E as (Hc & Hp & Hf);
    split; [|exact Hf];
    pose proof (fresh_after_refresh now now' fetched0 Hw) as Hfresh;
    apply fresh_test in Hfresh; unfold getter;
    cbn [Catalog.set_comm Catalog.set_posts Catalog._cache_comm
         Catalog._cache_posts];
    rewrite Hfresh; reflexivity ].

Lemma communities_getter :
  cached_getter (Catalog._get_communities env)
                Catalog._cache_comm Catalog._cache_posts (u "communities/").
Proof. cached_getter_tac get_communities_stale Catalog._get_communities. Qed.

Lemma posts_getter :
  cached_getter (Catalog._get_posts env)
                Catalog._cache_posts Catalog._cache_comm (u "posts/").
Proof. cached_getter_tac get_posts_stale Catalog._get_posts. Qed.


Lemma stale_or_fresh (now : Q) (slot : Catalog.cache_slot) :
  stale now slot \/ ~ stale now slot.
Proof.
  destruct (negb (Qle_bool (now - Catalog.ts slot) (inject_Z (CACHE_TTL_SEC env))))
    eqn:E; [left; apply stale_test|right; apply fresh_test]; exact E.
Qed.

(** What a refresh that raises, and a slot that changed, say of a cached
    getter. *)
Definition replaces_on_success_only
  (get : Catalog.server -> nat -> Q -> Catalog.State ->
         option (result (list json) * Catalog.State))
  (slot : Catalog.State -> Catalog.cache_slot) (endpoint : pystr) : Prop :=
  (forall srv fuel now st e st1,
      stale now (slot st) ->
      Catalog._get_all env srv fuel endpoint st = Some (Raise e, st1) ->
      get srv fuel now st = Some (Raise e, st1) /\
      Catalog._cache_comm st1 = Catalog._cache_comm st /\
      Catalog._cache_posts st1 = Catalog._cache_posts st) /\
  forall srv fuel now st r st',
    get srv fuel now st = Some (r, st') ->
    (forall e, r = Raise e ->
               Catalog._get_all env srv fuel endpoint st = Some (Raise e, st') /\
               Catalog._cache_comm st' = Catalog._cache_comm st /\
               Catalog._cache_posts st' = Catalog._cache_posts st) /\
    (slot st' <> slot st ->
     exists fetched st1,
       Catalog._get_all env srv fuel endpoint st = Some (Ok fetched, st1) /\
       r = Ok fetched /\
       slot st' = {| Catalog.ts := now; Catalog.items := fetched |}).

Lemma cached_getter_replaces get slot other endpoint :
  (slot = Catalog._cache_comm /\ other = Catalog._cache_posts \/
   slot = Catalog._cache_posts /\ other = Catalog._cache_comm) ->
  cached_getter get slot other endpoint ->
  replaces_on_success_only get slot endpoint.
Proof.
  intros Hslots [Hfresh Hstale _ Hraises _ _]. split.
  { intros srv fuel now st e st1 Hs H. split; [apply Hraises; assumption|].
    apply get_all_fields in H. destruct H as (Hc & Hp & _). split; assumption. }
  intros srv fuel now st r st' H.
  destruct (stale_or_fresh now (slot st)) as [Hs|Hf].
  - destruct (Hstale srv fuel now st r st' Hs H) as (_ & Hother & st1 & Hall & Hr).
    split.
    + intros e ->. destruct Hr as [-> Hslot].
      split; [exact Hall|].
      destruct Hslots as [[-> ->]|[-> ->]]; split; assumption.
    + intros Hne. destruct r as [fetched|e].
      * exists fetched, st1. repeat split; assumption.
      * destruct Hr as [_ Hslot]. contradiction.
  - rewrite (Hfresh srv fuel now st Hf) in H. injection H as <- <-.
    split; [intros e He; discriminate|intros Hne; contradiction].
Qed.

(** C4: when the paginated fetch raises during a refresh, the getter
    raises the same error and both cache slots (items and time stamp) are
    as before; conversely a getter that raises has had its fetch raise, and
    a slot changes only through a fetch that succeeded, to the fetched
    items and the time of the call. *)
Theorem failed_fetch_keeps_cache :
  replaces_on_success_only (Catalog._get_communities env)
                           Catalog._cache_comm (u "communities/") /\
  replaces_on_success_only (Catalog._get_posts env)
                           Catalog._cache_posts (u "posts/").
Proof.
  split.
  - apply (cached_getter_replaces _ _ Catalog._cache_posts); [|exact communities_getter].
    left. split; reflexivity.
  - apply (cached_getter_replaces _ _ Catalog._cache_comm); [|exact posts_getter].
    right. split; reflexivity.
Qed.
End CacheFacts.


(** A refresh against a catalog that answers 503. *)
Lemma failed_fetch_keeps_cache_witness :
  exists e st',
    Catalog._get_posts Sample.env (Sample.serve_status 503 "down") 5 1000
      Catalog.initial = Some (Raise e, st') /\
    Catalog._cache_posts st' = Catalog._cache_posts Catalog.initial /\
    Catalog._cache_comm st' = Catalog._cache_comm Catalog.initial.
Proof.
  assert (H : exists e st',
             Catalog._get_posts Sample.env (Sample.serve_status 503 "down") 5 1000
               Catalog.initial = Some (Raise e, st'))
    by (do 2 eexists; vm_compute; reflexivity).
  destruct H as (e & st' & H). exists e, st'. split; [exact H|].
  destruct (failed_fetch_keeps_cache Sample.env) as [_ [_ Hp]].
  destruct (Hp _ _ _ _ _ _ H) as [Hraise _].
  destruct (Hraise e eq_refl) as (_ & Hc & Hpo). split; assumption.
Defined.

(** ** Classification *)

Section ClassifierFacts.
Variable env : Env.
Variable fs : Classifier.Artifacts.

(** The normalized text of a request. *)
Definition text_of (description : json) : pystr :=
  Norm._normalize_text (nfc env) (py_or description (JStr [])).

(** The probabilities of a text under a pipeline. *)
Definition probs_of (pipe : Classifier.Pipeline) (text : pystr) : list Q :=
  map (Classifier.sigmoid env) (Classifier.decision_function pipe text).

(** The artifacts are in place: nothing is loaded on a request. *)
Definition loaded (st : Classifier.State) (pipe : Classifier.Pipeline) : Prop :=
  Classifier.PIPE st = Some pipe /\ Classifier.LABELS st <> [].

(** The selection of lines 142-146 on its own. *)
Definition select (probs thresholds : list Q) (labels : list pystr)
  : result (list pystr) :=
  mask ← Np.ge probs thresholds;
  let idx := Np.where_ mask in
  if Nat.eqb (length idx) 0 then Ok []
  else
    sub ← Np.take probs idx;
    idx_sorted ← Np.take idx (argsort env (Np.neg sub));
    Np.take labels idx_sorted.

Lemma predict_labels_loaded (description : json) (st : Classifier.State)
  (pipe : Classifier.Pipeline) :
  loaded st pipe ->
  Classifier.predict_labels env fs description st
  = if Nat.eqb (length (text_of description)) 0 then (Ok [], st)
    else (select (probs_of pipe (text_of description))
                 (Classifier.thresholds_of env st) (Classifier.LABELS st),
          Classifier.record_call (text_of description) st).
Proof.
  intros [Hp Hl]. unfold Classifier.predict_labels. rewrite Hp.
  assert (E : Nat.eqb (length (Classifier.LABELS st)) 0 = false)
    by (destruct (Classifier.LABELS st); [contradiction|reflexivity]).
  rewrite E. cbn [orb]. fold (text_of description).
  destruct (Nat.eqb (length (text_of description)) 0); [reflexivity|].
  rewrite Hp. reflexivity.
Qed.

Lemma perm_seq_bound (p : list nat) (n : nat) :
  Permutation p (seq 0 n) -> Forall (fun i => i < n) p.
Proof.
  intros H. apply Forall_forall. intros i Hi. apply list_elem_of_In in Hi.
  apply (Permutation_in _ H) in Hi. apply in_seq in Hi. lia.
Qed.

(** The selection returns the labels at the indices whose probability
    reaches the threshold, each once, by probability descending. *)
Lemma select_spec (probs thresholds : list Q) (labels : list pystr) :
  Np.argsort_spec (argsort env) ->
  length probs = length labels ->
  length thresholds = length labels ->
  exists order,
    select probs thresholds labels = Ok (map (fun i => nth i labels []) order) /\
    NoDup order /\
    (forall i, i ∈ order <->
               exists p t, probs !! i = Some p /\ thresholds !! i = Some t /\
                           (t <= p)%Q) /\
    (forall a b i j p q, a < b ->
        order !! a = Some i -> order !! b = Some j ->
        probs !! i = Some p -> probs !! j = Some q -> (q <= p)%Q).
Proof.
  intros Hsort Hlp Hlt. unfold select.
  rewrite ge_same_length by congruence. cbn [mbind result_bind rbind].
  set (mask := zip_with (fun x y => Qle_bool y x) probs thresholds).
  assert (Hmask : forall i, mask !! i = Some true <->
             exists p t, probs !! i = Some p /\ thresholds !! i = Some t /\ (t <= p)%Q).
  { intros i. unfold mask. rewrite lookup_zip_with_Some. split.
    - intros (p & t & Hb & Hp & Ht). symmetry in Hb. apply Qle_bool_iff in Hb. eauto.
    - intros (p & t & Hp & Ht & Hle). exists p, t.
      apply Qle_bool_iff in Hle. rewrite Hle. auto. }
  assert (Hidx : forall i, i ∈ Np.where_ mask -> i < length probs).
  { intros i Hi. apply where_spec, Hmask in Hi. destruct Hi as (p & _ & Hp & _).
    apply lookup_lt_Some in Hp. exact Hp. }
  set (idx := Np.where_ mask) in *.
  assert (Hnd : NoDup idx) by (apply sorted_lt_NoDup, where_from_sorted).
  destruct (Nat.eqb (length idx) 0) eqn:E0.
  { apply Nat.eqb_eq in E0. destruct idx as [|? ?] eqn:Ei; [|discriminate].
    exists []. split; [reflexivity|]. split; [constructor|]. split.
    - intros i. rewrite <- Hmask, <- where_spec. fold idx. rewrite Ei. reflexivity.
    - intros a b i j p q _ H. discriminate. }
  rewrite (take_map 0%Q probs idx)
    by (apply Forall_forall; exact Hidx).
  cbn [mbind result_bind rbind].
  set (sub := map (fun i => nth i probs 0%Q) idx).
  destruct (Hsort (Np.neg sub)) as [Hperm Hord].
  assert (Hlen : length (Np.neg sub) = length idx)
    by (unfold Np.neg, sub; rewrite !length_map; reflexivity).
  rewrite Hlen in Hperm.
  rewrite (take_map 0 idx (argsort env (Np.neg sub)))
    by (apply perm_seq_bound; exact Hperm).
  cbn [mbind result_bind rbind].
  set (order := map (fun i => nth i idx 0) (argsort env (Np.neg sub))).
  assert (Hpo : Permutation order idx).
  { unfold order.
    transitivity (map (fun i => nth i idx 0) (seq 0 (length idx)));
      [apply Permutation_map; exact Hperm|].
    rewrite map_nth_seq. reflexivity. }
  assert (Hin : forall i, i ∈ order <-> i ∈ idx).
  { intros i. rewrite !list_elem_of_In. split; apply Permutation_in;
      [exact Hpo|symmetry; exact Hpo]. }
  exists order. split.
  { apply (take_map [] labels order). apply Forall_forall. intros i Hi.
    apply Hin, Hidx in Hi. lia. }
  split; [rewrite Hpo; exact Hnd|].
  split; [intros i; rewrite Hin; unfold idx; rewrite where_spec; apply Hmask|].
  intros a b i j p q Hab Ha Hb Hp Hq.
  unfold order in Ha, Hb. rewrite list_lookup_fmap in Ha, Hb.
  destruct (argsort env (Np.neg sub) !! a) as [i'|] eqn:Ea; [|discriminate].
  destruct (argsort env (Np.neg sub) !! b) as [j'|] eqn:Eb; [|discriminate].
  cbn in Ha, Hb. injection Ha as Ha. injection Hb as Hb.
  assert (Hi' : i' < length idx).
  { assert (H := perm_seq_bound _ _ Hperm). rewrite Forall_forall in H.
    apply H. apply list_elem_of_lookup. eauto. }
  assert (Hj' : j' < length idx).
  { assert (H := perm_seq_bound _ _ Hperm). rewrite Forall_forall in H.
    apply H. apply list_elem_of_lookup. eauto. }
  assert (Hsub : forall k, k < length idx ->
             Np.neg sub !! k = Some (- nth (nth k idx 0%nat) probs 0)%Q).
  { intros k Hk. unfold Np.neg, sub. rewrite !list_lookup_fmap.
    destruct (lookup_lt_is_Some_2 idx k Hk) as (x & Hx). rewrite Hx. cbn.
    rewrite (nth_lookup_Some idx k 0 x Hx). reflexivity. }
  specialize (Hord a b i' j' _ _ Hab Ea Eb (Hsub i' Hi') (Hsub j' Hj')).
  rewrite Ha, Hb in Hord.
  rewrite (nth_lookup_Some probs i 0%Q p Hp) in Hord.
  rewrite (nth_lookup_Some probs j 0%Q q Hq) in Hord.
  apply Qopp_le_compat in Hord. rewrite !Qopp_involutive in Hord. exact Hord.
Qed.
End ClassifierFacts.

Section SortContracts.

Lemma StronglySorted_lookup {A} (R : A -> A -> Prop) (l : list A) :
  StronglySorted R l ->
  forall a b x y, a < b -> l !! a = Some x -> l !! b = Some y -> R x y.
Proof.
  induction 1 as [|z l Hs IH Hz]; intros a b x y Hab Ha Hb; [discriminate|].
  destruct b as [|b]; [lia|]. cbn in Hb.
  destruct a as [|a].
  - cbn in Ha. injection Ha as <-. rewrite Forall_forall in Hz.
    apply Hz. apply list_elem_of_lookup. eauto.
  - cbn in Ha. apply (IH a b); [lia|assumption..].
Qed.

(** Any stable pass over some arrangement of the indices meets the
    contract of [np.argsort]. *)
Lemma sort_of_indices_spec (arrange : nat -> list nat) :
  (forall n, Permutation (arrange n) (seq 0 n)) ->
  Np.argsort_spec
    (fun v => Np.stable_sort_by Qle_bool (Np.key_of v) (arrange (length v))).
Proof.
  intros Harr v. split.
  - rewrite stable_sort_by_perm. apply Harr.
  - intros a b i j x y Hab Ha Hb Hx Hy.
    assert (Hs : StronglySorted (refines Qle_bool (Np.key_of v) (fun _ _ => True))
                   (Np.stable_sort_by Qle_bool (Np.key_of v) (arrange (length v)))).
    { apply (insertion_all_sorted Qle_bool _ Qle_bool_total Qle_bool_trans). }
    pose proof (StronglySorted_lookup _ _ Hs a b i j Hab Ha Hb) as H.
    unfold refines, Np.key_of in H.
    rewrite (nth_lookup_Some v i 0%Q x Hx), (nth_lookup_Some v j 0%Q y Hy) in H.
    destruct H as [H|[H _]].
    + apply Qle_bool_false in H. apply Qlt_le_weak. exact H.
    + apply Qle_bool_iff. exact H.
Qed.

Lemma argsort_stable_spec : Np.argsort_spec Sample.argsort_stable.
Proof.
  apply (sort_of_indices_spec (fun n => seq 0 n)). reflexivity.
Qed.

End SortContracts.

Section PredictFacts.
Variable env : Env.
Variable fs : Classifier.Artifacts.


Lemma load_artifacts_ok (st : Classifier.State) (pipe : Classifier.Pipeline)
  (labels : list pystr) :
  Classifier.model_file fs = Some pipe ->
  Classifier.labels_file fs = Some labels ->
  exists st',
    Classifier.load_artifacts env fs st = (Ok tt, st') /\
    Classifier.PIPE st' = Some pipe /\ Classifier.LABELS st' = labels /\
    Classifier.model_calls st' = Classifier.model_calls st.
Proof.
  intros Hm Hl. unfold Classifier.load_artifacts. rewrite Hm, Hl.
  destruct (Classifier.thr_file fs) as [arr|];
    [destruct (negb _)|]; eexists; repeat split.
Qed.

(** C8 (as amended): when the artifacts are loaded, or can be loaded, a
    description that is [None] or normalizes to the empty string gives the
    empty list, and the model is not asked. *)
Theorem empty_text_short_circuit (description : json) (st : Classifier.State) :
  (description = JNull /\ nfc env [] = []) \/ text_of env description = [] ->
  (exists pipe, loaded st pipe) \/
  (Classifier.model_file fs <> None /\ Classifier.labels_file fs <> None) ->
  exists st',
    Classifier.predict_labels env fs description st = (Ok [], st') /\
    Classifier.model_calls st' = Classifier.model_calls st.
Proof.
  intros Hd Hart.
  assert (Htext : text_of env description = []).
  { destruct Hd as [[-> Hnfc]|H]; [|exact H].
    unfold text_of, py_or. cbn [truthy Norm._normalize_text]. rewrite Hnfc.
    reflexivity. }
  unfold Classifier.predict_labels. fold (text_of env description).
  rewrite Htext. cbn [length Nat.eqb].
  destruct (match Classifier.PIPE st with None => true | Some _ => false end
            || Nat.eqb (length (Classifier.LABELS st)) 0) eqn:E.
  - assert (Hfiles : Classifier.model_file fs <> None /\
                     Classifier.labels_file fs <> None).
    { destruct Hart as [(pipe & Hp & Hl)|H]; [|exact H].
      rewrite Hp in E. destruct (Classifier.LABELS st); [contradiction|discriminate]. }
    destruct Hfiles as [Hm Hl].
    destruct (Classifier.model_file fs) as [pipe|] eqn:Em; [|contradiction].
    destruct (Classifier.labels_file fs) as [labels|] eqn:El; [|contradiction].
    destruct (load_artifacts_ok st pipe labels Em El) as (st' & -> & _ & _ & Hc).
    exists st'. split; [reflexivity|exact Hc].
  - exists st. split; reflexivity.
Qed.

Lemma load_artifacts_mismatch (st : Classifier.State)
  (pipe : Classifier.Pipeline) (labels : list pystr) (arr : Classifier.ndarray) :
  Classifier.model_file fs = Some pipe ->
  Classifier.labels_file fs = Some labels ->
  Classifier.thr_file fs = Some arr ->
  Classifier.shape arr <> [length labels] ->
  Classifier.load_artifacts env fs st
  = (Ok tt,
     Classifier.set_globals (Some pipe) labels None
       (Classifier.print Classifier.warn_thresholds
          (Classifier.print (u "[INFO] Using ARTIFACTS_DIR = " ++ ARTIFACTS_DIR env) st))).
Proof.
  intros Hm Hl Ht Hs. unfold Classifier.load_artifacts. rewrite Hm, Hl, Ht.
  unfold Classifier.shape_eqb. rewrite bool_decide_eq_false_2 by exact Hs.
  reflexivity.
Qed.

(** The state after a run of predictions. *)
Fixpoint predictions (ds : list json) (st : Classifier.State) : Classifier.State :=
  match ds with
  | [] => st
  | d :: ds' => predictions ds' (Classifier.predict_labels env fs d st).2
  end.

(** The globals a load with misaligned thresholds leaves. *)
Definition defaulted (pipe : Classifier.Pipeline) (labels : list pystr)
  (st : Classifier.State) : Prop :=
  Classifier.PIPE st = Some pipe /\ Classifier.LABELS st = labels /\
  Classifier.THRESHOLDS st = None.

Lemma predict_keeps_defaulted (pipe : Classifier.Pipeline) (labels : list pystr)
  (arr : Classifier.ndarray) (d : json) (st : Classifier.State) :
  Classifier.model_file fs = Some pipe ->
  Classifier.labels_file fs = Some labels ->
  Classifier.thr_file fs = Some arr ->
  Classifier.shape arr <> [length labels] ->
  defaulted pipe labels st ->
  defaulted pipe labels (Classifier.predict_labels env fs d st).2.
Proof.
  intros Hm Hl Ht Hs (Hp & Hlab & Hthr). unfold Classifier.predict_labels.
  rewrite Hp. cbn [orb].
  destruct (Nat.eqb (length (Classifier.LABELS st)) 0).
  - rewrite (load_artifacts_mismatch st pipe labels arr Hm Hl Ht Hs).
    destruct (Nat.eqb (length _) 0); cbn [snd Classifier.set_globals Classifier.PIPE];
      repeat split.
  - destruct (Nat.eqb (length _) 0); [repeat split; assumption|].
    rewrite Hp. cbn [snd]. repeat split; assumption.
Qed.

Lemma predictions_keep_defaulted (pipe : Classifier.Pipeline)
  (labels : list pystr) (arr : Classifier.ndarray) (ds : list json) :
  Classifier.model_file fs = Some pipe ->
  Classifier.labels_file fs = Some labels ->
  Classifier.thr_file fs = Some arr ->
  Classifier.shape arr <> [length labels] ->
  forall st, defaulted pipe labels st -> defaulted pipe labels (predictions ds st).
Proof.
  intros Hm Hl Ht Hs. induction ds as [|d ds IH]; intros st Hst; cbn [predictions].
  - exact Hst.
  - apply IH. eapply predict_keeps_defaulted; eassumption.
Qed.

(** C6: a thresholds file whose shape is not (number of labels,) does not
    make the load fail; the load prints the warning and leaves no
    thresholds, and every prediction after it compares each probability
    with the default threshold. *)
Theorem mismatched_thresholds_fall_back (st : Classifier.State)
  (pipe : Classifier.Pipeline) (labels : list pystr) (arr : Classifier.ndarray) :
  Classifier.model_file fs = Some pipe ->
  Classifier.labels_file fs = Some labels ->
  Classifier.thr_file fs = Some arr ->
  Classifier.shape arr <> [length labels] ->
  exists st',
    Classifier.load_artifacts env fs st = (Ok tt, st') /\
    Classifier.PIPE st' = Some pipe /\ Classifier.LABELS st' = labels /\
    Classifier.THRESHOLDS st' = None /\
    Classifier.stdout st'
    = Classifier.stdout st
      ++ [u "[INFO] Using ARTIFACTS_DIR = " ++ ARTIFACTS_DIR env;
          Classifier.warn_thresholds] /\
    forall ds,
      Classifier.THRESHOLDS (predictions ds st') = None /\
      Classifier.thresholds_of env (predictions ds st')
      = Np.full (length labels) (DEFAULT_THR env) /\
      forall d,
        Np.argsort_spec (argsort env) ->
        labels <> [] ->
        text_of env d <> [] ->
        length (Classifier.decision_function pipe (text_of env d)) = length labels ->
        exists order,
          (Classifier.predict_labels env fs d (predictions ds st')).1
          = Ok (map (fun i => nth i labels []) order) /\
          NoDup order /\
          forall i, i ∈ order <->
                    exists p, probs_of env pipe (text_of env d) !! i = Some p /\
                              (DEFAULT_THR env <= p)%Q.
Proof.
  intros Hm Hl Ht Hs.
  eexists. split; [apply (load_artifacts_mismatch st pipe labels arr Hm Hl Ht Hs)|].
  cbn [Classifier.set_globals Classifier.print Classifier.PIPE Classifier.LABELS
       Classifier.THRESHOLDS Classifier.stdout].
  split; [reflexivity|]. split; [reflexivity|]. split; [reflexivity|].
  split; [rewrite <- app_assoc; reflexivity|].
  intros ds.
  set (st0 := Classifier.set_globals _ _ _ _).
  assert (Hdef : defaulted pipe labels (predictions ds st0)).
  { apply (predictions_keep_defaulted pipe labels arr ds Hm Hl Ht Hs).
    repeat split. }
  destruct Hdef as (Hp & Hlab & Hthr).
  assert (Hthrs : Classifier.thresholds_of env (predictions ds st0)
                  = Np.full (length labels) (DEFAULT_THR env)).
  { unfold Classifier.thresholds_of. rewrite Hthr, Hlab. reflexivity. }
  split; [exact Hthr|]. split; [exact Hthrs|].
  intros d Hsort Hne Htext Hscores.
  assert (Hload : loaded (predictions ds st0) pipe)
    by (split; [exact Hp|rewrite Hlab; exact Hne]).
  rewrite (predict_labels_loaded env fs d _ pipe Hload).
  destruct (Nat.eqb (length (text_of env d)) 0) eqn:E.
  { apply Nat.eqb_eq in E. destruct (text_of env d); [contradiction|discriminate]. }
  cbn [fst]. rewrite Hthrs, Hlab.
  destruct (select_spec env (probs_of env pipe (text_of env d))
              (Np.full (length labels) (DEFAULT_THR env)) labels Hsort)
    as (order & Hsel & Hnd & Hin & _).
  - unfold probs_of. rewrite length_map. exact Hscores.
  - apply repeat_length.
  - exists order. split; [exact Hsel|]. split; [exact Hnd|].
    intros i. rewrite Hin. split.
    + intros (p & t & Hpi & Hti & Hle). exists p. split; [exact Hpi|].
      unfold Np.full in Hti. apply lookup_repeat in Hti.
      destruct Hti as [-> _]. exact Hle.
    + intros (p & Hpi & Hle). exists p, (DEFAULT_THR env).
      split; [exact Hpi|]. split; [|exact Hle].
      unfold Np.full. apply lookup_repeat. split; [reflexivity|].
      apply lookup_lt_Some in Hpi. unfold probs_of in Hpi.
      rewrite length_map in Hpi. lia.
Qed.
End PredictFacts.



Lemma empty_text_short_circuit_witness :
  exists st',
    Classifier.predict_labels Sample.env Sample.no_artifacts (JStr (u "   "))
      (Sample.loaded_state [0; 2]%Q [u "python"; u "sql"]) = (Ok [], st') /\
    Classifier.model_calls st' = [].
Proof.
  apply (empty_text_short_circuit Sample.env Sample.no_artifacts).
  - right. vm_compute. reflexivity.
  - left. exists (Sample.pipe [0; 2]%Q). split; [reflexivity|vm_compute; discriminate].
Defined.

(** C8 (as stated) fails: on a process that has not loaded its artifacts
    and cannot find the model file, an empty or missing description raises
    [FileNotFoundError], which the handler turns into a 500 response. *)
Lemma empty_text_raises_when_artifacts_missing :
  (Classifier.predict_labels Sample.env Sample.no_artifacts (JStr [])
     Classifier.initial).1
  = Raise (FileNotFoundError
             (Classifier.missing_message (u "/app/artifacts")
                [u "tfidf_logreg_ovr.joblib"])) /\
  (Classifier.predict_labels Sample.env Sample.no_artifacts JNull
     Classifier.initial).1
  = Raise (FileNotFoundError
             (Classifier.missing_message (u "/app/artifacts")
                [u "tfidf_logreg_ovr.joblib"])) /\
  (Classifier.predict Sample.env Sample.no_artifacts (JStr [])
     Classifier.initial).1
  = Raise (HTTPException 500
             (Classifier.missing_message (u "/app/artifacts")
                [u "tfidf_logreg_ovr.joblib"])).
Proof.
  repeat split; vm_compute; reflexivity.
Qed.

(** Three labels and a thresholds file of length two. *)
Lemma mismatched_thresholds_fall_back_witness :
  exists st',
    Classifier.load_artifacts Sample.env
      (Sample.artifacts [0; 2; -1]%Q [u "python"; u "c++"; u "arduino"]
         (Some {| Classifier.shape := [2];
                  Classifier.data := [9 # 10; 9 # 10]%Q |}))
      Classifier.initial = (Ok tt, st') /\
    Classifier.THRESHOLDS st' = None /\
    (Classifier.predict_labels Sample.env
       (Sample.artifacts [0; 2; -1]%Q [u "python"; u "c++"; u "arduino"]
          (Some {| Classifier.shape := [2];
                   Classifier.data := [9 # 10; 9 # 10]%Q |}))
       (JStr (u "robots")) st').1
    = Ok [u "c++"; u "python"].
Proof.
  destruct (mismatched_thresholds_fall_back Sample.env
              (Sample.artifacts [0; 2; -1]%Q [u "python"; u "c++"; u "arduino"]
                 (Some {| Classifier.shape := [2];
                          Classifier.data := [9 # 10; 9 # 10]%Q |}))
              Classifier.initial (Sample.pipe [0; 2; -1]%Q)
              [u "python"; u "c++"; u "arduino"]
              {| Classifier.shape := [2]; Classifier.data := [9 # 10; 9 # 10]%Q |}
              eq_refl eq_refl eq_refl)
    as (st' & Hload & _ & _ & Hthr & _ & _).
  - vm_compute. discriminate.
  - exists st'. split; [exact Hload|]. split; [exact Hthr|].
    unfold Classifier.load_artifacts in Hload. vm_compute in Hload.
    injection Hload as <-. vm_compute. reflexivity.
Defined.

(** The same request with a stable [argsort] keeps the label order. *)
Example predict_ties_with_stable_argsort :
  (Classifier.predict_labels Sample.env Sample.no_artifacts (JStr (u "go"))
     (Sample.loaded_state [0; 0]%Q [u "python"; u "sql"])).1
  = Ok [u "python"; u "sql"].
Proof. vm_compute. reflexivity. Qed.

(** ** Ranking *)

Section DotFacts.

Lemma dot_nil_l (b : list Q) : Np.dot [] b = 0%Q.
Proof. reflexivity. Qed.

Lemma dot_cons (x y : Q) (a b : list Q) :
  Np.dot (x :: a) (y :: b) = (x * y + Np.dot a b)%Q.
Proof. reflexivity. Qed.





End DotFacts.

Section RankFacts.
Variable env : Env.






Lemma nth_zip {A B} (a : list A) (b : list B) (da : A) (db : B) (i : nat) :
  i < length a -> i < length b ->
  nth i (zip a b) (da, db) = (nth i a da, nth i b db).
Proof.
  revert b i. induction a as [|x a IH]; intros [|y b] [|i] Ha Hb;
    cbn in *; try lia; try reflexivity.
  apply IH; lia.
Qed.

Lemma take_zip_records (ids : list Z) (scores : list Q) (idx : list nat) :
  length ids = length scores ->
  Forall (fun i => i < length scores) idx ->
  (ps ← Np.take (zip ids scores) idx;
   Ok (map (fun p : Z * Q => {| Reco.id := p.1; Reco.score := p.2 |}) ps))
  = Ok (map (fun i => {| Reco.id := nth i ids 0%Z;
                         Reco.score := nth i scores 0%Q |}) idx).
Proof.
  intros Hlen Hidx.
  rewrite (take_map (0%Z, 0%Q) (zip ids scores) idx).
  - cbn [mbind result_bind rbind]. rewrite map_map. f_equal.
    apply map_ext_in. intros i Hi. rewrite Forall_forall in Hidx.
    apply list_elem_of_In in Hi. specialize (Hidx i Hi).
    rewrite nth_zip by lia. reflexivity.
  - rewrite length_zip. eapply Forall_impl; [exact Hidx|].
    intros i Hi. cbn beta in Hi. rewrite Hlen. lia.
Qed.


Lemma respond_ok {A} (a : A) : Reco.respond env (Ok a) = Ok a.
Proof. reflexivity. Qed.

End RankFacts.




(** A limit of 0 is taken as absent: all three items come back, where
    max(1, 0) is 1. *)
Example limit_zero_is_fifty :
  Reco.top_k {| Reco.skills := []; Reco.limit := Some 0%Z |} = 50%Z /\
  option_map (@length _)
    (match Reco.rank Sample.env Sample.catalog
             {| Reco.skills := [u "python"]; Reco.limit := Some 0%Z |}
     with Ok a => Some a | Raise _ => None end)
  = Some 3.
Proof. split; vm_compute; reflexivity. Qed.

(** The ranking example of the vocabulary {python: 0, c++: 1}: an item
    with both skills against the query ["Python"] scores
    1 / (1 * sqrt 2), here 0.7071... to twelve places. *)
Example rank_single_item :
  match Reco.rank Sample.env [Sample.community 9 ["Python"%string; "C++"%string] 10]
          {| Reco.skills := [u "Python"]; Reco.limit := Some 1%Z |}
  with
  | Ok [item] =>
    Reco.id item = 9%Z /\
    (7071 # 10000 < Reco.score item)%Q /\ (Reco.score item < 7072 # 10000)%Q
  | _ => False
  end.
Proof. vm_compute. repeat split. Qed.

(** ** The worked examples of the service, evaluated on the embedding *)

Example synonym_folding :
  Norm._norm_token Norm.nfc_cyr Norm.lower_basic (JStr (u "C++")) = u "c++" /\
  Norm._norm_token Norm.nfc_cyr Norm.lower_basic (JStr (u "cpp")) = u "c++" /\
  Norm._norm_token Norm.nfc_cyr Norm.lower_basic (JStr (u "c plus plus")) = u "c++" /\
  Norm._norm_token Norm.nfc_cyr Norm.lower_basic (JStr (u " Си ")) = u "c" /\
  Norm._norm_token Norm.nfc_cyr Norm.lower_basic (JNum 3) = [].
Proof. repeat split; vm_compute; reflexivity. Qed.

Example normalize_text_trims_and_folds :
  Norm._normalize_text Norm.nfc_cyr (JStr (u "  Ёжик и ёлка	")) = u "Ёжик и елка" /\
  Norm._normalize_text Norm.nfc_cyr (JStr [0x435; 0x308]%N) = [0x435]%N /\
  Norm._normalize_text Norm.nfc_cyr JNull = [].
Proof. repeat split; vm_compute; reflexivity. Qed.

(** An item whose only skill is "arduino" also gets the "c++" dimension. *)
Example hint_expansion :
  Reco.one_hot Sample.vocab [u "arduino"] 4 [u "arduino"] = Ok [0; 1; 1; 0]%Q /\
  Reco._skills_to_vec Sample.env [u "Codeforces"] Sample.vocab = Ok [0; 1; 0; 0]%Q /\
  Reco._skills_to_vec Sample.env [u "rust"] Sample.vocab = Ok [0; 0; 0; 0]%Q.
Proof. repeat split; vm_compute; reflexivity. Qed.

(** An empty query scores every item 0, and the order is by popularity. *)
Example zero_vector_query :
  option_map (map (fun r => (Reco.id r, Reco.score r)))
    (match Reco.rank Sample.env Sample.catalog
             {| Reco.skills := []; Reco.limit := None |}
     with Ok a => Some a | Raise _ => None end)
  = Some [(3%Z, 0%Q); (1%Z, 0%Q); (2%Z, 0%Q)].
Proof. vm_compute. reflexivity. Qed.

(** A page of exactly the limit asks for one more page. *)
Example fetch_two_full_pages :
  match Catalog._get_all (Sample.env_with Sample.argsort_stable 1)
          (Sample.serve (firstn 2 Sample.catalog)) 5 (u "posts/") Catalog.initial
  with
  | Some (Ok fetched, st) =>
    fetched = firstn 2 Sample.catalog /\
    map Catalog.skip (Catalog.requests st) = [0; 1; 2]%Z
  | _ => False
  end.
Proof. vm_compute. split; reflexivity. Qed.

Example fetch_upstream_error :
  option_map fst
    (Catalog._get_all Sample.env (Sample.serve_status 503 "down") 5
       (u "posts/") Catalog.initial)
  = Some (Raise (HTTPException 503 (u "API error: down"))).
Proof. vm_compute. reflexivity. Qed.

(** * Further properties *)

(** ** Text and token normalization *)

Section NormExtra.
Import Norm.
Variable nfc : pystr -> pystr.
Variable lower : pystr -> pystr.

Lemma fold_yo_no_yo (s : pystr) : yo ∉ fold_yo s.
Proof.
  rewrite fold_yo_map. intros H. apply list_elem_of_fmap in H.
  destruct H as (c & Hc & _). revert Hc.
  destruct (c =? yo)%N eqn:E; intros Hc.
  - vm_compute in Hc. discriminate Hc.
  - apply N.eqb_neq in E. congruence.
Qed.

Lemma lstrip_suffix (s : pystr) : exists p, s = p ++ lstrip s.
Proof.
  induction s as [|c s (p & IH)]; [exists []; reflexivity|].
  cbn [lstrip]. destruct (is_space c).
  - exists (c :: p). cbn. f_equal. exact IH.
  - exists []. reflexivity.
Qed.

Lemma rstrip_prefix (s : pystr) : exists q, s = rstrip s ++ q.
Proof.
  induction s as [|c s (q & IH)]; [exists []; reflexivity|].
  cbn [rstrip]. destruct (rstrip s) as [|r rs] eqn:E.
  - destruct (is_space c).
    + exists (c :: s). reflexivity.
    + exists s. reflexivity.
  - exists q. cbn. f_equal. exact IH.
Qed.

Lemma strip_elem (s : pystr) (c : N) : c ∈ strip s -> c ∈ s.
Proof.
  unfold strip. intros H.
  destruct (rstrip_prefix (lstrip s)) as (q & Hq).
  destruct (lstrip_suffix s) as (p & Hp).
  rewrite Hp, Hq. rewrite !elem_of_app. auto.
Qed.

Lemma lstrip_head (s : pystr) (c : N) (r : pystr) :
  lstrip s = c :: r -> is_space c = false.
Proof.
  induction s as [|x s IH]; cbn [lstrip]; [discriminate|].
  destruct (is_space x) eqn:E; [exact IH|]. intros [= <- _]. exact E.
Qed.

Lemma rstrip_last (s : pystr) (c : N) (r : pystr) :
  rstrip s = r ++ [c] -> is_space c = false.
Proof.
  revert r. induction s as [|x s IH]; intros r; cbn [rstrip].
  - destruct r; discriminate.
  - destruct (rstrip s) as [|y ys] eqn:E.
    + destruct (is_space x) eqn:Ex; [destruct r; discriminate|].
      destruct r as [|? [|? ?]]; try discriminate. intros [= <-]. exact Ex.
    + destruct r as [|z r]; [discriminate|]. intros [= _ H].
      apply (IH r). exact H.
Qed.

(** X1: whatever the input, the text [_normalize_text] returns has no "ё"
    left and neither starts nor ends with a whitespace character. *)
Theorem normalize_text_folded_and_trimmed (s : json) :
  (yo ∉ _normalize_text nfc s) /\
  (forall c r, _normalize_text nfc s = c :: r -> is_space c = false) /\
  (forall c r, _normalize_text nfc s = r ++ [c] -> is_space c = false).
Proof.
  destruct s; cbn [_normalize_text];
    try (split; [apply not_elem_of_nil|split; intros c r H;
                                         [discriminate|destruct r; discriminate]]).
  split; [intros H; apply strip_elem in H; exact (fold_yo_no_yo _ H)|].
  split.
  - intros c r H. apply (lstrip_head (strip (fold_yo (nfc s))) c r).
    unfold strip in *. rewrite lstrip_rstrip_head; [exact H|apply lstrip_idem].
  - intros c r H. unfold strip in H. apply rstrip_last in H. exact H.
Qed.

(** The tokens that the loop of [_norm_list] has collected. *)
Lemma norm_list_fold_spec (l : list json) (acc : list pystr) :
  NoDup acc -> ([] ∉ acc) ->
  let toks := fold_left (norm_list_step nfc lower) l acc in
  NoDup toks /\ ([] ∉ toks) /\
  (exists extra, toks = acc ++ extra) /\
  forall t, t ∈ toks <->
            t ∈ acc \/ (t <> [] /\ exists x, x ∈ l /\ _norm_token nfc lower x = t).
Proof.
  revert acc. induction l as [|x l IH]; intros acc Hnd Hne; cbn [fold_left].
  - split; [exact Hnd|]. split; [exact Hne|]. split; [exists []; symmetry; apply app_nil_r|].
    intros t. split; [auto|]. intros [H|(_ & y & Hy & _)]; [exact H|inversion Hy].
  - set (n := _norm_token nfc lower x).
    assert (Hstep : norm_list_step nfc lower acc x
                    = if negb (Nat.eqb (length n) 0) && negb (bool_decide (n ∈ acc))
                      then acc ++ [n] else acc) by reflexivity.
    rewrite Hstep.
    destruct (negb (Nat.eqb (length n) 0) && negb (bool_decide (n ∈ acc))) eqn:E.
    + apply andb_true_iff in E. destruct E as [E1 E2].
      apply negb_true_iff in E1, E2. apply Nat.eqb_neq in E1.
      apply bool_decide_eq_false in E2.
      assert (Hn : n <> []) by (intros Hn; rewrite Hn in E1; apply E1; reflexivity).
      destruct (IH (acc ++ [n])) as (H1 & H2 & (extra & H3) & H4).
      { apply NoDup_app. split; [exact Hnd|]. split; [|apply NoDup_singleton].
        intros y Hy Hy'. apply list_elem_of_singleton in Hy'. congruence. }
      { rewrite elem_of_app, list_elem_of_singleton. intros [H|H]; [auto|congruence]. }
      split; [exact H1|]. split; [exact H2|].
      split; [exists ([n] ++ extra); rewrite H3, <- app_assoc; reflexivity|].
      intros t. rewrite H4, elem_of_app, list_elem_of_singleton. split.
      * intros [[H| ->]|(Ht & y & Hy & Hyt)]; [left; exact H| |].
        -- right. split; [exact Hn|]. exists x. split; [left|reflexivity].
        -- right. split; [exact Ht|]. exists y. split; [right; exact Hy|exact Hyt].
      * intros [H|(Ht & y & Hy & Hyt)]; [left; left; exact H|].
        apply elem_of_cons in Hy. destruct Hy as [ ->|Hy].
        -- left. right. symmetry. exact Hyt.
        -- right. split; [exact Ht|]. exists y. split; assumption.
    + destruct (IH acc Hnd Hne) as (H1 & H2 & H3 & H4).
      split; [exact H1|]. split; [exact H2|]. split; [exact H3|].
      intros t. rewrite H4. split.
      * intros [H|(Ht & y & Hy & Hyt)]; [left; exact H|].
        right. split; [exact Ht|]. exists y. split; [right; exact Hy|exact Hyt].
      * intros [H|(Ht & y & Hy & Hyt)]; [left; exact H|].
        apply elem_of_cons in Hy. destruct Hy as [ ->|Hy].
        -- left. fold n in Hyt. subst t.
           apply andb_false_iff in E. destruct E as [E|E].
           ++ apply negb_false_iff, Nat.eqb_eq in E.
              destruct n; [contradiction|discriminate].
           ++ apply negb_false_iff, bool_decide_eq_true in E. exact E.
        -- right. split; [exact Ht|]. exists y. split; assumption.
Qed.

Lemma norm_list_of_list (l : list json) :
  _norm_list nfc lower (JList l)
  = Ok (fold_left (norm_list_step nfc lower) l []).
Proof.
  unfold _norm_list, py_or. cbn [truthy].
  destruct l; reflexivity.
Qed.

(** X2: on a list, [_norm_list] returns the non-empty normalized tokens of
    its elements, each once, in the order they are first seen: a longer
    list only appends to the tokens of a shorter one. *)
Theorem norm_list_dedup_first_seen (l l' : list json) :
  exists toks extra,
    _norm_list nfc lower (JList l) = Ok toks /\
    _norm_list nfc lower (JList (l ++ l')) = Ok (toks ++ extra) /\
    NoDup toks /\ ([] ∉ toks) /\
    forall t, t ∈ toks <->
              t <> [] /\ exists x, x ∈ l /\ _norm_token nfc lower x = t.
Proof.
  destruct (norm_list_fold_spec l [] (NoDup_nil_2) (not_elem_of_nil _))
    as (Hnd & Hne & _ & Hin).
  destruct (norm_list_fold_spec l' (fold_left (norm_list_step nfc lower) l [])
              Hnd Hne) as (_ & _ & (extra & Hext) & _).
  exists (fold_left (norm_list_step nfc lower) l []), extra.
  split; [apply norm_list_of_list|].
  split; [rewrite norm_list_of_list, fold_left_app; f_equal; exact Hext|].
  split; [exact Hnd|]. split; [exact Hne|].
  intros t. rewrite Hin. split; [intros [H|H]; [inversion H|exact H]|auto].
Qed.

(** X3: [_norm_list] raises only [TypeError], and exactly on a value that
    is true for Python and cannot be iterated (a non-zero number, [True]);
    a value that is false for Python ([None], 0, an empty string, list or
    dict, [False]) gives the empty list. *)
Theorem norm_list_raises_iff (xs : json) :
  (truthy xs = false -> _norm_list nfc lower xs = Ok []) /\
  (forall e, _norm_list nfc lower xs = Raise e <->
             e = TypeError /\
             (xs = JBool true \/ exists q, xs = JNum q /\ ~ (q == 0)%Q)).
Proof.
  split.
  - intros H. unfold _norm_list, py_or. rewrite H. reflexivity.
  - intros e. unfold _norm_list, py_or.
    destruct xs as [|b|q|s|l|d]; cbn [truthy].
    + split; [discriminate|intros (_ & [H|(q & H & _)]); discriminate].
    + destruct b; cbn [py_iter mbind result_bind rbind].
      * split; [intros [= <-]; auto|intros [-> _]; reflexivity].
      * split; [discriminate|intros (_ & [H|(q & H & _)]); discriminate].
    + destruct (Qeq_bool q 0) eqn:E; cbn [negb py_iter mbind result_bind rbind].
      * split; [discriminate|].
        intros (_ & [H|(q' & [= <-] & Hq)]); [discriminate|].
        apply Qeq_bool_iff in E. contradiction.
      * split; [intros [= <-]; split; [reflexivity|right; exists q; split; [reflexivity|]]
               |intros [-> _]; reflexivity].
        intros Hq. apply Qeq_bool_iff in Hq. congruence.
    + destruct (negb _); cbn [py_iter mbind result_bind rbind];
        (split; [discriminate|intros (_ & [H|(q & H & _)]); discriminate]).
    + destruct (negb _); cbn [py_iter mbind result_bind rbind];
        (split; [discriminate|intros (_ & [H|(q & H & _)]); discriminate]).
    + destruct (negb _); cbn [py_iter mbind result_bind rbind];
        (split; [discriminate|intros (_ & [H|(q & H & _)]); discriminate]).
Qed.

Ltac closed_ne := let H := fresh in intros H; vm_compute in H; discriminate H.

Lemma synonyms_get_canonical (s : pystr) :
  Forall (fun kv : pystr * pystr => synonyms_get synonyms s <> kv.1) synonyms /\
  synonyms_get synonyms (synonyms_get synonyms s) = synonyms_get synonyms s.
Proof.
  unfold synonyms. cbn [synonyms_get]. unfold pystr_eqb.
  repeat case_bool_decide; subst;
    try (exfalso;
         match goal with
         | H : u _ = u _ |- _ => vm_compute in H; discriminate H
         end);
    (split;
     [rewrite !Forall_cons; repeat split; cbn [fst];
      first [congruence|closed_ne|constructor]
     |first [vm_compute; reflexivity|repeat case_bool_decide; congruence]]).
Qed.

(** X4: the token [_norm_token] returns is canonical: it is never one of
    the spellings the synonym table replaces, so looking it up again
    changes nothing. *)
Theorem norm_token_canonical (t : json) :
  Forall (fun kv : pystr * pystr => _norm_token nfc lower t <> kv.1) synonyms /\
  synonyms_get synonyms (_norm_token nfc lower t) = _norm_token nfc lower t.
Proof.
  destruct t; cbn [_norm_token];
    try (split; [unfold synonyms; rewrite !Forall_cons; repeat split; cbn [fst];
                 first [closed_ne|constructor]
                |vm_compute; reflexivity]).
  apply synonyms_get_canonical.
Qed.
End NormExtra.

(** ** Loading the artifacts and predicting *)

Section ClassifierExtra.
Variable env : Env.
Variable fs : Classifier.Artifacts.

(** The three globals of the classifier. *)
Definition same_globals (a b : Classifier.State) : Prop :=
  Classifier.PIPE a = Classifier.PIPE b /\
  Classifier.LABELS a = Classifier.LABELS b /\
  Classifier.THRESHOLDS a = Classifier.THRESHOLDS b.


(** An array is well formed when it has as many items as its shape says. *)
Definition ndarray_wf (arr : Classifier.ndarray) : Prop :=
  length (Classifier.data arr) = fold_right Nat.mul 1 (Classifier.shape arr).

(** X6: after a load that succeeds, the thresholds that predictions
    compare with have exactly one entry per label, whatever the thresholds
    file held. *)
Theorem loaded_thresholds_aligned (st st' : Classifier.State) :
  (forall arr, Classifier.thr_file fs = Some arr -> ndarray_wf arr) ->
  Classifier.load_artifacts env fs st = (Ok tt, st') ->
  length (Classifier.thresholds_of env st') = length (Classifier.LABELS st').
Proof.
  intros Hwf. unfold Classifier.load_artifacts.
  destruct (Classifier.model_file fs) as [pipe|]; [|discriminate].
  destruct (Classifier.labels_file fs) as [labels|]; [|discriminate].
  destruct (Classifier.thr_file fs) as [arr|] eqn:Et.
  - unfold Classifier.shape_eqb. case_bool_decide as Hs; cbn [negb].
    + intros [= <-]. unfold Classifier.thresholds_of.
      cbn [Classifier.set_globals Classifier.THRESHOLDS Classifier.LABELS].
      rewrite (Hwf arr eq_refl), Hs. cbn. lia.
    + intros [= <-]. unfold Classifier.thresholds_of, Np.full.
      cbn [Classifier.set_globals Classifier.THRESHOLDS Classifier.LABELS].
      apply repeat_length.
  - intros [= <-]. unfold Classifier.thresholds_of, Np.full.
    cbn [Classifier.set_globals Classifier.THRESHOLDS Classifier.LABELS].
    apply repeat_length.
Qed.

(** X7: once the artifacts are loaded a prediction neither reloads nor
    prints: the globals and the output stay as they are, and the model is
    asked once, with the normalized text, unless that text is empty. *)
Theorem predict_labels_keeps_artifacts (description : json)
  (st : Classifier.State) (pipe : Classifier.Pipeline) :
  loaded st pipe ->
  same_globals (Classifier.predict_labels env fs description st).2 st /\
  Classifier.stdout (Classifier.predict_labels env fs description st).2
  = Classifier.stdout st /\
  Classifier.model_calls (Classifier.predict_labels env fs description st).2
  = Classifier.model_calls st
    ++ (if Nat.eqb (length (text_of env description)) 0 then []
        else [text_of env description]).
Proof.
  intros Hl. rewrite (predict_labels_loaded env fs description st pipe Hl).
  destruct (Nat.eqb (length (text_of env description)) 0); cbn [snd].
  - rewrite app_nil_r. repeat split.
  - repeat split.
Qed.

(** X8: the first prediction of a process loads the artifacts and then
    answers as a loaded process does. *)
Theorem predict_labels_loads_first (description : json)
  (st : Classifier.State) (pipe : Classifier.Pipeline) (labels : list pystr) :
  Classifier.model_file fs = Some pipe ->
  Classifier.labels_file fs = Some labels ->
  labels <> [] ->
  Classifier.PIPE st = None \/ Classifier.LABELS st = [] ->
  exists st1,
    Classifier.load_artifacts env fs st = (Ok tt, st1) /\
    loaded st1 pipe /\
    Classifier.predict_labels env fs description st
    = Classifier.predict_labels env fs description st1.
Proof.
  intros Hm Hl Hne Hun.
  destruct (load_artifacts_ok env fs st pipe labels Hm Hl) as (st1 & Hload & Hp & Hlab & _).
  assert (Hloaded : loaded st1 pipe) by (split; [exact Hp|rewrite Hlab; exact Hne]).
  exists st1. split; [exact Hload|]. split; [exact Hloaded|].
  rewrite (predict_labels_loaded env fs description st1 pipe Hloaded).
  unfold Classifier.predict_labels at 1.
  assert (Hcond : (match Classifier.PIPE st with None => true | Some _ => false end
                   || Nat.eqb (length (Classifier.LABELS st)) 0) = true).
  { destruct Hun as [-> | ->]; [reflexivity|]. cbn. apply orb_true_r. }
  rewrite Hcond, Hload. fold (text_of env description).
  destruct (Nat.eqb (length (text_of env description)) 0); [reflexivity|].
  rewrite Hp. reflexivity.
Qed.

(** X9: on a process that has not loaded and misses a required file,
    [predict_labels] raises [FileNotFoundError] for every description,
    the model is not asked, and the handler answers 500 with the message
    of the error as detail. *)
Theorem predict_unloaded_missing_files (description : json)
  (st : Classifier.State) :
  Classifier.PIPE st = None \/ Classifier.LABELS st = [] ->
  Classifier.model_file fs = None \/ Classifier.labels_file fs = None ->
  exists msg st',
    Classifier.predict_labels env fs description st
    = (Raise (FileNotFoundError msg), st') /\
    Classifier.predict env fs description st
    = (Raise (HTTPException 500 msg), st') /\
    Classifier.model_calls st' = Classifier.model_calls st /\
    same_globals st' st.
Proof.
  intros Hun Hmiss.
  assert (Hcond : (match Classifier.PIPE st with None => true | Some _ => false end
                   || Nat.eqb (length (Classifier.LABELS st)) 0) = true).
  { destruct Hun as [-> | ->]; [reflexivity|]. cbn. apply orb_true_r. }
  assert (Hload : exists msg,
             Classifier.load_artifacts env fs st
             = (Raise (FileNotFoundError msg),
                Classifier.print (u "[INFO] Using ARTIFACTS_DIR = " ++ ARTIFACTS_DIR env) st)).
  { unfold Classifier.load_artifacts.
    destruct (Classifier.model_file fs), (Classifier.labels_file fs);
      [destruct Hmiss; discriminate|eauto..]. }
  destruct Hload as (msg & Hload).
  assert (Hpl : Classifier.predict_labels env fs description st
                = (Raise (FileNotFoundError msg),
                   Classifier.print (u "[INFO] Using ARTIFACTS_DIR = " ++ ARTIFACTS_DIR env) st)).
  { unfold Classifier.predict_labels. rewrite Hcond, Hload. reflexivity. }
  exists msg, (Classifier.print (u "[INFO] Using ARTIFACTS_DIR = " ++ ARTIFACTS_DIR env) st).
  split; [exact Hpl|]. split; [unfold Classifier.predict; rewrite Hpl; reflexivity|].
  repeat split.
Qed.
End ClassifierExtra.

Section PredictExtra.
Variable env : Env.
Variable fs : Classifier.Artifacts.

(** X10: the labels a prediction returns are entries of the label list,
    at most as many as there are labels and without repetition when the
    label list has none; the result is empty exactly when no probability
    reaches its threshold. *)
Theorem predicted_labels_from_label_list (description : json)
  (st : Classifier.State) (pipe : Classifier.Pipeline) :
  Np.argsort_spec (argsort env) ->
  loaded st pipe ->
  text_of env description <> [] ->
  length (Classifier.decision_function pipe (text_of env description))
  = length (Classifier.LABELS st) ->
  length (Classifier.thresholds_of env st) = length (Classifier.LABELS st) ->
  exists labels,
    (Classifier.predict_labels env fs description st).1 = Ok labels /\
    (forall l, l ∈ labels -> l ∈ Classifier.LABELS st) /\
    length labels <= length (Classifier.LABELS st) /\
    (NoDup (Classifier.LABELS st) -> NoDup labels) /\
    (labels = [] <->
     forall i p t,
       probs_of env pipe (text_of env description) !! i = Some p ->
       Classifier.thresholds_of env st !! i = Some t -> (p < t)%Q).
Proof.
  intros Hsort Hload Htext Hscores Hthr.
  rewrite (predict_labels_loaded env fs description st pipe Hload).
  destruct (Nat.eqb (length (text_of env description)) 0) eqn:E.
  { apply Nat.eqb_eq in E. destruct (text_of env description); [contradiction|discriminate]. }
  cbn [fst].
  assert (Hlp : length (probs_of env pipe (text_of env description))
                = length (Classifier.LABELS st))
    by (unfold probs_of; rewrite length_map; exact Hscores).
  destruct (select_spec env (probs_of env pipe (text_of env description))
              (Classifier.thresholds_of env st) (Classifier.LABELS st) Hsort Hlp Hthr)
    as (order & Hsel & Hnd & Hin & _).
  assert (Hlt : forall i, i ∈ order -> i < length (Classifier.LABELS st)).
  { intros i Hi. apply Hin in Hi. destruct Hi as (p & _ & Hp & _).
    apply lookup_lt_Some in Hp. lia. }
  exists (map (fun i => nth i (Classifier.LABELS st) []) order).
  split; [exact Hsel|]. split.
  { intros l Hl. apply list_elem_of_fmap in Hl. destruct Hl as (i & -> & Hi).
    apply list_elem_of_In, nth_In, Hlt, Hi. }
  split.
  { rewrite length_map.
    transitivity (length (seq 0 (length (Classifier.LABELS st))));
      [|rewrite length_seq; reflexivity].
    apply submseteq_length, NoDup_submseteq; [exact Hnd|].
    intros i Hi. apply elem_of_seq. specialize (Hlt i Hi). lia. }
  split.
  { intros HndL. apply NoDup_fmap_2_strong; [|exact Hnd].
    intros i j Hi Hj Heq.
    destruct (lookup_lt_is_Some_2 _ i (Hlt i Hi)) as (x & Hx).
    destruct (lookup_lt_is_Some_2 _ j (Hlt j Hj)) as (y & Hy).
    rewrite (nth_lookup_Some _ i [] x Hx), (nth_lookup_Some _ j [] y Hy) in Heq.
    subst y. eapply NoDup_lookup; eassumption. }
  split.
  - intros Hnil i p t Hp Ht.
    destruct order as [|o order]; [|discriminate].
    destruct (Qlt_le_dec p t) as [Hlt'|Hle]; [exact Hlt'|].
    exfalso. assert (Hi : i ∈ ([] : list nat)) by (apply Hin; eauto).
    inversion Hi.
  - intros Hnone. destruct order as [|o order]; [reflexivity|exfalso].
    assert (Ho : o ∈ o :: order) by left.
    apply Hin in Ho. destruct Ho as (p & t & Hp & Ht & Hle).
    specialize (Hnone o p t Hp Ht). eapply Qlt_not_le; eassumption.
Qed.
End PredictExtra.

Lemma loaded_thresholds_aligned_witness :
  length (Classifier.thresholds_of Sample.env
            (Classifier.load_artifacts Sample.env
               (Sample.artifacts [0; 2]%Q [u "python"; u "sql"]
                  (Some {| Classifier.shape := [2];
                           Classifier.data := [1 # 4; 3 # 4]%Q |}))
               Classifier.initial).2)
  = 2.
Proof.
  apply (loaded_thresholds_aligned Sample.env
           (Sample.artifacts [0; 2]%Q [u "python"; u "sql"]
              (Some {| Classifier.shape := [2];
                       Classifier.data := [1 # 4; 3 # 4]%Q |}))
           Classifier.initial).
  - intros arr [= <-]. reflexivity.
  - reflexivity.
Defined.

Lemma predict_labels_keeps_artifacts_witness :
  Classifier.stdout
    (Classifier.predict_labels Sample.env Sample.no_artifacts (JStr (u "go"))
       (Sample.loaded_state [0; 2]%Q [u "python"; u "sql"])).2 = [] /\
  Classifier.model_calls
    (Classifier.predict_labels Sample.env Sample.no_artifacts (JStr (u "go"))
       (Sample.loaded_state [0; 2]%Q [u "python"; u "sql"])).2 = [u "go"].
Proof.
  destruct (predict_labels_keeps_artifacts Sample.env Sample.no_artifacts
              (JStr (u "go")) (Sample.loaded_state [0; 2]%Q [u "python"; u "sql"])
              (Sample.pipe [0; 2]%Q)) as (_ & Hout & Hcalls).
  - split; [reflexivity|vm_compute; discriminate].
  - split; [exact Hout|]. rewrite Hcalls. vm_compute. reflexivity.
Defined.

Lemma predict_labels_loads_first_witness :
  (Classifier.predict_labels Sample.env
     (Sample.artifacts [0; 2]%Q [u "python"; u "sql"] None)
     (JStr (u "go")) Classifier.initial).1
  = Ok [u "sql"; u "python"].
Proof.
  destruct (predict_labels_loads_first Sample.env
              (Sample.artifacts [0; 2]%Q [u "python"; u "sql"] None)
              (JStr (u "go")) Classifier.initial (Sample.pipe [0; 2]%Q)
              [u "python"; u "sql"] eq_refl eq_refl)
    as (st1 & Hload & _ & Hrun).
  - vm_compute. discriminate.
  - left. reflexivity.
  - rewrite Hrun. vm_compute in Hload. injection Hload as <-.
    vm_compute. reflexivity.
Defined.

Lemma predict_unloaded_missing_files_witness :
  exists msg st',
    Classifier.predict Sample.env Sample.no_artifacts (JStr (u "go"))
      Classifier.initial = (Raise (HTTPException 500 msg), st') /\
    Classifier.model_calls st' = [].
Proof.
  destruct (predict_unloaded_missing_files Sample.env Sample.no_artifacts
              (JStr (u "go")) Classifier.initial)
    as (msg & st' & _ & Hp & Hc & _).
  - left. reflexivity.
  - left. reflexivity.
  - exists msg, st'. split; [exact Hp|exact Hc].
Defined.

Lemma predicted_labels_from_label_list_witness :
  exists labels,
    (Classifier.predict_labels Sample.env Sample.no_artifacts (JStr (u "go"))
       (Sample.loaded_state [0; 2; -1; 0]%Q Sample.labels4)).1 = Ok labels /\
    length labels <= 4.
Proof.
  destruct (predicted_labels_from_label_list Sample.env Sample.no_artifacts
              (JStr (u "go")) (Sample.loaded_state [0; 2; -1; 0]%Q Sample.labels4)
              (Sample.pipe [0; 2; -1; 0]%Q))
    as (labels & Hrun & _ & Hlen & _).
  - exact argsort_stable_spec.
  - split; [reflexivity|vm_compute; discriminate].
  - vm_compute. discriminate.
  - reflexivity.
  - reflexivity.
  - exists labels. split; [exact Hrun|exact Hlen].
Defined.

(** ** Paginated fetch and cache *)

Section FetchExtra.
Variable env : Env.

Lemma get_all_loop_requests (srv : Catalog.server) (endpoint : pystr) (fuel : nat) :
  forall (k : nat) (acc : list json) (st : Catalog.State) r st',
    Catalog.get_all_loop env srv fuel endpoint
      (Z.of_nat k * MP_API_PAGE_LIMIT env) acc st = Some (r, st') ->
    exists n, 1 <= n <= fuel /\
              Catalog.requests st'
              = Catalog.requests st ++ map (page_request env endpoint) (seq k n).
Proof.
  induction fuel as [|fuel IH]; intros k acc st r st' H;
    cbn [Catalog.get_all_loop] in H; [discriminate|].
  change {| Catalog.endpoint := endpoint;
            Catalog.skip := Z.of_nat k * MP_API_PAGE_LIMIT env;
            Catalog.limit := MP_API_PAGE_LIMIT env |}
    with (page_request env endpoint k) in H.
  assert (Hone : forall x : result (list json),
             Some (x, Catalog.send (page_request env endpoint k) st) = Some (r, st') ->
             exists n, 1 <= n <= S fuel /\
                       Catalog.requests st'
                       = Catalog.requests st ++ map (page_request env endpoint) (seq k n)).
  { intros x [= _ <-]. exists 1. split; [lia|reflexivity]. }
  destruct (srv _) as [msg|resp]; [eapply Hone; exact H|].
  destruct (negb (Catalog.status resp =? 200)%Z); [eapply Hone; exact H|].
  destruct (Catalog.json_body resp) as [e|j]; [eapply Hone; exact H|].
  destruct j; try (eapply Hone; exact H).
  destruct (Z.of_nat (length l) <? MP_API_PAGE_LIMIT env)%Z; [eapply Hone; exact H|].
  replace (Z.of_nat k * MP_API_PAGE_LIMIT env + MP_API_PAGE_LIMIT env)%Z
    with (Z.of_nat (S k) * MP_API_PAGE_LIMIT env)%Z in H by lia.
  apply IH in H. destruct H as (n & Hn & Hreq).
  exists (S n). split; [lia|]. rewrite Hreq.
  cbn [Catalog.send Catalog.requests seq map]. rewrite <- app_assoc. reflexivity.
Qed.

(** X11: whatever the catalog answers, a call of [_get_all] that returns
    has sent between one request and one request per iteration, for the
    pages 0, 1, 2, ... of its endpoint with the configured limit, and has
    not touched either cache slot. *)
Theorem get_all_requests_pages_in_order (srv : Catalog.server) (fuel : nat)
  (endpoint : pystr) (st : Catalog.State) (r : result (list json))
  (st' : Catalog.State) :
  Catalog._get_all env srv fuel endpoint st = Some (r, st') ->
  (exists n, 1 <= n <= fuel /\
             Catalog.requests st'
             = Catalog.requests st ++ map (page_request env endpoint) (seq 0 n)) /\
  Catalog._cache_comm st' = Catalog._cache_comm st /\
  Catalog._cache_posts st' = Catalog._cache_posts st /\
  Catalog.fetches st' = Catalog.fetches st ++ [endpoint].
Proof.
  intros H. split; [|apply (get_all_fields env srv fuel endpoint st r st'); exact H].
  unfold Catalog._get_all in H.
  change 0%Z with (Z.of_nat 0 * MP_API_PAGE_LIMIT env)%Z in H.
  apply get_all_loop_requests in H. exact H.
Qed.

Lemma serve_loop (data : list json) (endpoint : pystr) (fuel : nat) :
  (0 < MP_API_PAGE_LIMIT env)%Z ->
  forall (k : nat) (st : Catalog.State),
    k * Z.to_nat (MP_API_PAGE_LIMIT env) <= length data ->
    length data - k * Z.to_nat (MP_API_PAGE_LIMIT env)
    < fuel * Z.to_nat (MP_API_PAGE_LIMIT env) ->
    exists st',
      Catalog.get_all_loop env (Sample.serve data) fuel endpoint
        (Z.of_nat k * MP_API_PAGE_LIMIT env)
        (firstn (k * Z.to_nat (MP_API_PAGE_LIMIT env)) data) st
      = Some (Ok data, st').
Proof.
  intros HL. set (L := Z.to_nat (MP_API_PAGE_LIMIT env)).
  assert (HLz : MP_API_PAGE_LIMIT env = Z.of_nat L) by (unfold L; lia).
  assert (HLpos : 0 < L) by (unfold L; lia).
  induction fuel as [|fuel IH]; intros k st Hk Hfuel; [lia|].
  cbn [Catalog.get_all_loop Sample.serve Catalog.status Catalog.json_body
       Catalog.skip Catalog.limit Z.eqb Pos.eqb negb].
  replace (Z.to_nat (Z.of_nat k * MP_API_PAGE_LIMIT env)) with (k * L)
    by (rewrite HLz; lia).
  fold L.
  set (page := firstn L (skipn (k * L) data)).
  assert (Hpage : length page = Nat.min L (length data - k * L)).
  { unfold page. rewrite length_firstn, length_skipn. reflexivity. }
  destruct (Z.ltb_spec (Z.of_nat (length page)) (MP_API_PAGE_LIMIT env)) as [Hshort|Hfull].
  - eexists. f_equal. f_equal. f_equal.
    assert (Hrest : page = skipn (k * L) data).
    { unfold page. apply firstn_all2. rewrite length_skipn. lia. }
    rewrite Hrest. apply firstn_skipn.
  - replace (Z.of_nat k * MP_API_PAGE_LIMIT env + MP_API_PAGE_LIMIT env)%Z
      with (Z.of_nat (S k) * MP_API_PAGE_LIMIT env)%Z by lia.
    assert (Hacc : firstn (k * L) data ++ page = firstn (S k * L) data).
    { unfold page. replace (S k * L) with (k * L + L) by lia.
      apply take_take_drop. }
    rewrite Hacc. apply IH; [lia|nia].
Qed.

(** X12: against a catalog that holds a list and honours [skip] and
    [limit], [_get_all] returns the whole list, in order, for every
    positive page size, as soon as it may run one iteration per page. *)
Theorem get_all_reassembles (data : list json) (endpoint : pystr)
  (fuel : nat) (st : Catalog.State) :
  (0 < MP_API_PAGE_LIMIT env)%Z ->
  length data < fuel * Z.to_nat (MP_API_PAGE_LIMIT env) ->
  exists st',
    Catalog._get_all env (Sample.serve data) fuel endpoint st
    = Some (Ok data, st').
Proof.
  intros HL Hfuel. unfold Catalog._get_all.
  destruct (serve_loop data endpoint fuel HL 0 (Catalog.enter_fetch endpoint st))
    as (st' & H); [lia|lia|].
  exists st'. exact H.
Qed.

(** What a getter keeps true of the slot it serves. *)
Definition keeps_slot
  (get : Catalog.server -> nat -> Q -> Catalog.State ->
         option (result (list json) * Catalog.State))
  (slot : Catalog.State -> Catalog.cache_slot) : Prop :=
  forall srv fuel now st r st',
    get srv fuel now st = Some (r, st') ->
    (forall snapshot, r = Ok snapshot -> Catalog.items (slot st') = snapshot) /\
    (Catalog.ts (slot st') = Catalog.ts (slot st) \/ Catalog.ts (slot st') = now) /\
    ((0 <= CACHE_TTL_SEC env)%Z ->
     (Catalog.ts (slot st) <= Catalog.ts (slot st'))%Q).

Lemma cached_getter_keeps_slot get slot other endpoint :
  cached_getter env get slot other endpoint -> keeps_slot get slot.
Proof.
  intros [Hfresh Hstale _ _ _ _] srv fuel now st r st' H.
  destruct (stale_or_fresh env now (slot st)) as [Hs|Hf].
  - destruct (Hstale srv fuel now st r st' Hs H) as (_ & _ & st1 & _ & Hr).
    destruct r as [fetched|e].
    + rewrite Hr. cbn [Catalog.items Catalog.ts].
      split; [intros snapshot [= <-]; reflexivity|]. split; [right; reflexivity|].
      intros Httl. unfold stale in Hs.
      assert (H0 : (0 <= inject_Z (CACHE_TTL_SEC env))%Q).
      { unfold Qle. cbn. lia. }
      apply Qlt_le_weak.
      assert (Hpos : (0 < now - Catalog.ts (slot st))%Q)
        by (eapply Qle_lt_trans; eassumption).
      apply Qlt_minus_iff. exact Hpos.
    + destruct Hr as [_ Hslot]. rewrite Hslot.
      split; [intros snapshot Hx; discriminate|]. split; [left; reflexivity|].
      intros _. apply Qle_refl.
  - rewrite (Hfresh srv fuel now st Hf) in H. injection H as <- <-.
    split; [intros snapshot [= <-]; reflexivity|]. split; [left; reflexivity|].
    intros _. apply Qle_refl.
Qed.

(** X13: what a cached getter returns is what its slot holds afterwards;
    the time stamp of the slot is the old one or the time of the call, and
    with a non-negative TTL it never goes back. *)
Theorem getters_keep_slot :
  keeps_slot (Catalog._get_communities env) Catalog._cache_comm /\
  keeps_slot (Catalog._get_posts env) Catalog._cache_posts.
Proof.
  split.
  - apply (cached_getter_keeps_slot _ _ Catalog._cache_posts (u "communities/")).
    apply communities_getter.
  - apply (cached_getter_keeps_slot _ _ Catalog._cache_comm (u "posts/")).
    apply posts_getter.
Qed.
End FetchExtra.

Lemma get_all_requests_pages_in_order_witness :
  exists st',
    Catalog._get_all Sample.env2 (Sample.serve Sample.catalog) 5 (u "posts/")
      Catalog.initial = Some (Ok Sample.catalog, st') /\
    Catalog._cache_posts st' = Catalog._cache_posts Catalog.initial /\
    Catalog.fetches st' = [u "posts/"].
Proof.
  assert (H : exists st',
             Catalog._get_all Sample.env2 (Sample.serve Sample.catalog) 5 (u "posts/")
               Catalog.initial = Some (Ok Sample.catalog, st'))
    by (eexists; vm_compute; reflexivity).
  destruct H as (st' & H). exists st'. split; [exact H|].
  destruct (get_all_requests_pages_in_order Sample.env2 _ _ _ _ _ _ H)
    as (_ & _ & Hp & Hf).
  split; [exact Hp|exact Hf].
Defined.

Lemma get_all_reassembles_witness :
  exists st',
    Catalog._get_all Sample.env2 (Sample.serve Sample.catalog) 2
      (u "communities/") Catalog.initial = Some (Ok Sample.catalog, st').
Proof.
  apply (get_all_reassembles Sample.env2 Sample.catalog (u "communities/") 2
           Catalog.initial).
  - reflexivity.
  - vm_compute. lia.
Defined.

Section EndpointExtra.
Variable env : Env.

(** X14: when a refresh is due and the catalog answers the first page
    with a status other than 200, the recommendation endpoint answers 500
    whatever that status was, with the upstream error inside the detail,
    and the cache slot is left as it was. *)
Theorem upstream_failure_is_500 (srv : Catalog.server) (fuel : nat) (now : Q)
  (req : Reco.RecoRequest) (st : Catalog.State) (resp : Catalog.response) :
  stale env now (Catalog._cache_comm st) ->
  0 < fuel ->
  srv (page_request env (u "communities/") 0) = Catalog.Replied resp ->
  Catalog.status resp <> 200%Z ->
  exists st',
    Reco.predict_communities env srv fuel now req st
    = Some (Raise (HTTPException 500
                     (u "Internal error: "
                        ++ exn_str env (upstream_error (Catalog.status resp)
                                                       (Catalog.text resp)))),
            st') /\
    Catalog._cache_comm st' = Catalog._cache_comm st /\
    Catalog.requests st'
    = Catalog.requests st ++ [page_request env (u "communities/") 0].
Proof.
  intros Hs Hfuel Hsrv Hst.
  destruct fuel as [|fuel]; [lia|].
  assert (Hall : Catalog._get_all env srv (S fuel) (u "communities/") st
                 = Some (Raise (upstream_error (Catalog.status resp) (Catalog.text resp)),
                         Catalog.send (page_request env (u "communities/") 0)
                           (Catalog.enter_fetch (u "communities/") st))).
  { unfold Catalog._get_all.
    change 0%Z with (Z.of_nat 0 * MP_API_PAGE_LIMIT env)%Z.
    apply get_all_loop_stop. unfold stop_outcome. rewrite Hsrv.
    destruct (Z.eqb_spec (Catalog.status resp) 200); [contradiction|reflexivity]. }
  eexists. split; [|split].
  - unfold Reco.predict_communities.
    rewrite (get_communities_stale env srv (S fuel) now st Hs), Hall.
    reflexivity.
  - reflexivity.
  - reflexivity.
Qed.
End EndpointExtra.

Lemma upstream_failure_is_500_witness :
  exists detail st',
    Reco.predict_communities Sample.env (Sample.serve_status 503 "down") 3 1000
      {| Reco.skills := [u "python"]; Reco.limit := None |} Catalog.initial
    = Some (Raise (HTTPException 500 (u "Internal error: " ++ detail)), st') /\
    Catalog._cache_comm st' = Catalog._cache_comm Catalog.initial.
Proof.
  destruct (upstream_failure_is_500 Sample.env (Sample.serve_status 503 "down") 3 1000
              {| Reco.skills := [u "python"]; Reco.limit := None |} Catalog.initial
              {| Catalog.status := 503; Catalog.text := u "down";
                 Catalog.json_body := inl (u "not json") |})
    as (st' & Hrun & Hc & _).
  - reflexivity.
  - lia.
  - reflexivity.
  - discriminate.
  - eexists; exists st'. split; [exact Hrun|exact Hc].
Defined.

(** ** Vocabulary *)

Section VocabExtra.
Variable env : Env.

Lemma build_vocab_from_app (a b : list json) (v : gmap pystr nat) :
  Reco.build_vocab_from env v (a ++ b)
  = (v' ← Reco.build_vocab_from env v a; Reco.build_vocab_from env v' b).
Proof.
  revert v. induction a as [|obj a IH]; intros v; [reflexivity|].
  cbn [app Reco.build_vocab_from].
  destruct (obj_get obj (u "skills") (JList [])) as [sk|e]; [|reflexivity].
  rsimpl. destruct (Reco.norm_list env sk) as [toks|e]; [|reflexivity].
  rsimpl. apply IH.
Qed.

Lemma vocab_add_lookup (v : gmap pystr nat) (tok t : pystr) :
  is_Some (Reco.vocab_add v tok !! t) <-> is_Some (v !! t) \/ t = tok.
Proof.
  unfold Reco.vocab_add. destruct (v !! tok) as [j|] eqn:E.
  - split; [auto|]. intros [H| ->]; [exact H|eauto].
  - rewrite lookup_insert_is_Some. split.
    + intros [->|[_ H]]; auto.
    + intros [H| ->]; [|auto].
      destruct (decide (tok = t)) as [->|Hne]; auto.
Qed.

Lemma vocab_add_keeps (v : gmap pystr nat) (tok t : pystr) (j : nat) :
  v !! t = Some j -> Reco.vocab_add v tok !! t = Some j.
Proof.
  intros H. unfold Reco.vocab_add. destruct (v !! tok) as [j0|] eqn:E; [exact H|].
  rewrite lookup_insert_ne; [exact H|]. intros ->. congruence.
Qed.

Lemma fold_vocab_add_lookup (toks : list pystr) (v : gmap pystr nat) (t : pystr) :
  is_Some (fold_left Reco.vocab_add toks v !! t) <-> is_Some (v !! t) \/ t ∈ toks.
Proof.
  revert v. induction toks as [|tok toks IH]; intros v; cbn [fold_left].
  - split; [auto|]. intros [H|H]; [exact H|inversion H].
  - rewrite IH, vocab_add_lookup, elem_of_cons. tauto.
Qed.

Lemma fold_vocab_add_keeps (toks : list pystr) (v : gmap pystr nat)
  (t : pystr) (j : nat) :
  v !! t = Some j -> fold_left Reco.vocab_add toks v !! t = Some j.
Proof.
  revert v. induction toks as [|tok toks IH]; intros v H; cbn [fold_left];
    [exact H|]. apply IH, vocab_add_keeps, H.
Qed.

(** The normalized skills of an object. *)
Definition skills_of (obj : json) (toks : list pystr) : Prop :=
  exists sk, obj_get obj (u "skills") (JList []) = Ok sk /\
             Reco.norm_list env sk = Ok toks.

Lemma build_vocab_from_spec (objs : list json) :
  forall v v', Reco.build_vocab_from env v objs = Ok v' ->
    (forall t j, v !! t = Some j -> v' !! t = Some j) /\
    (forall t, is_Some (v' !! t) <->
               is_Some (v !! t) \/
               exists obj toks, obj ∈ objs /\ skills_of obj toks /\ t ∈ toks).
Proof.
  induction objs as [|obj objs IH]; intros v v' H; cbn [Reco.build_vocab_from] in H.
  - injection H as <-. split; [auto|]. intros t. split; [auto|].
    intros [H|(obj & toks & Hin & _)]; [exact H|inversion Hin].
  - destruct (obj_get obj (u "skills") (JList [])) as [sk|e] eqn:Eg; [|discriminate].
    rsimpl in H. destruct (Reco.norm_list env sk) as [toks|e] eqn:En; [|discriminate].
    rsimpl in H. destruct (IH _ _ H) as [Hkeep Hdom]. split.
    + intros t j Ht. apply Hkeep, fold_vocab_add_keeps, Ht.
    + intros t. rewrite Hdom, fold_vocab_add_lookup. split.
      * intros [[Hv|Ht]|(o & ts & Hin & Hsk & Ht)]; [left; exact Hv| |].
        -- right. exists obj, toks. split; [left|]. split; [exists sk; auto|exact Ht].
        -- right. exists o, ts. split; [right; exact Hin|]. split; assumption.
      * intros [Hv|(o & ts & Hin & Hsk & Ht)]; [left; left; exact Hv|].
        apply elem_of_cons in Hin. destruct Hin as [->|Hin].
        -- left. right. destruct Hsk as (sk' & Hg & Hn).
           rewrite Eg in Hg. injection Hg as <-. rewrite En in Hn.
           injection Hn as <-. exact Ht.
        -- right. exists o, ts. split; [exact Hin|]. split; assumption.
Qed.

(** X15: the tokens of a vocabulary are exactly the normalized skill
    tokens of the objects it was built from. *)
Theorem build_vocab_tokens (objs : list json) (vocab : gmap pystr nat) :
  Reco._build_vocab env objs = Ok vocab ->
  forall t, is_Some (vocab !! t) <->
            exists obj toks, obj ∈ objs /\ skills_of obj toks /\ t ∈ toks.
Proof.
  intros H t. destruct (build_vocab_from_spec objs ∅ vocab H) as [_ Hdom].
  rewrite Hdom, lookup_empty. split; [intros [[x Hx]|Hobj]; [discriminate|exact Hobj]|auto].
Qed.

(** X16: objects added at the end of a catalog never change the index of
    a token the catalog already had: the vocabulary of the longer catalog
    extends the vocabulary of the shorter one, and it exists whenever the
    longer one does. *)
Theorem build_vocab_extends (objs objs' : list json) (vocab' : gmap pystr nat) :
  Reco._build_vocab env (objs ++ objs') = Ok vocab' ->
  exists vocab,
    Reco._build_vocab env objs = Ok vocab /\
    size vocab <= size vocab' /\
    forall t j, vocab !! t = Some j -> vocab' !! t = Some j.
Proof.
  unfold Reco._build_vocab. rewrite build_vocab_from_app.
  destruct (Reco.build_vocab_from env ∅ objs) as [vocab|e]; rsimpl; [|discriminate].
  intros H. exists vocab. split; [reflexivity|].
  destruct (build_vocab_from_spec objs' vocab vocab' H) as [Hkeep _].
  split; [|exact Hkeep].
  apply map_subseteq_size, map_subseteq_spec. exact Hkeep.
Qed.
End VocabExtra.

Lemma build_vocab_tokens_witness :
  is_Some (Sample.vocab !! u "javascript") <->
  exists obj toks, obj ∈ Sample.catalog /\
                   skills_of Sample.env obj toks /\ u "javascript" ∈ toks.
Proof.
  apply (build_vocab_tokens Sample.env Sample.catalog Sample.vocab).
  vm_compute. reflexivity.
Defined.

Lemma build_vocab_extends_witness :
  exists vocab,
    Reco._build_vocab Sample.env (firstn 2 Sample.catalog) = Ok vocab /\
    size vocab <= size Sample.vocab /\
    forall t j, vocab !! t = Some j -> Sample.vocab !! t = Some j.
Proof.
  apply (build_vocab_extends Sample.env (firstn 2 Sample.catalog)
           (skipn 2 Sample.catalog) Sample.vocab).
  vm_compute. reflexivity.
Defined.

(** ** Objects, matrix and ranking *)

Section RecoExtra.
Variable env : Env.

(** A value the skill loop can run over: anything but [True] and a
    non-zero number. *)
Definition iterable_or_false (sk : json) : Prop :=
  sk <> JBool true /\ forall q, sk = JNum q -> (q == 0)%Q.

(** An object whose skills can be read: a dict whose "skills", when
    present, can be iterated or is false for Python. *)
Definition has_usable_skills (obj : json) : Prop :=
  exists d, obj = JDict d /\
            forall sk, assoc_get d (u "skills") = Some sk -> iterable_or_false sk.

Lemma norm_list_ok_iff (xs : json) :
  (exists toks, Reco.norm_list env xs = Ok toks) <-> iterable_or_false xs.
Proof.
  unfold Reco.norm_list, Norm._norm_list, py_or, iterable_or_false.
  destruct xs as [|b|q|s|l|d]; cbn [truthy].
  - rsimpl. split; [intros _; split; [discriminate|intros q H; discriminate]|eauto].
  - destruct b; cbn [Norm.py_iter]; rsimpl.
    + split; [intros (toks & H); discriminate|intros [H _]; contradiction].
    + split; [intros _; split; [discriminate|intros q H; discriminate]|eauto].
  - destruct (Qeq_bool q 0) eqn:E; cbn [negb Norm.py_iter]; rsimpl.
    + split; [|eauto]. intros _. split; [discriminate|].
      intros q' [= <-]. apply Qeq_bool_iff. exact E.
    + split; [intros (toks & H); discriminate|].
      intros [_ H]. specialize (H q eq_refl). apply Qeq_bool_iff in H. congruence.
  - destruct (negb _); cbn [Norm.py_iter]; rsimpl;
      (split; [intros _; split; [discriminate|intros q H; discriminate]|eauto]).
  - destruct (negb _); cbn [Norm.py_iter]; rsimpl;
      (split; [intros _; split; [discriminate|intros q H; discriminate]|eauto]).
  - destruct (negb _); cbn [Norm.py_iter]; rsimpl;
      (split; [intros _; split; [discriminate|intros q H; discriminate]|eauto]).
Qed.

Lemma skills_readable_iff (obj : json) :
  (exists toks, skills_of env obj toks) <-> has_usable_skills obj.
Proof.
  unfold skills_of, has_usable_skills. split.
  - intros (toks & sk & Hg & Hn). destruct obj; try discriminate.
    exists d. split; [reflexivity|]. intros sk' Hsk. cbn [obj_get] in Hg.
    rewrite Hsk in Hg. injection Hg as <-. apply norm_list_ok_iff. eauto.
  - intros (d & -> & Hsk). cbn [obj_get].
    destruct (assoc_get d (u "skills")) as [sk|] eqn:E.
    + destruct (proj2 (norm_list_ok_iff sk) (Hsk sk eq_refl)) as (toks & Ht).
      exists toks, sk. auto.
    + exists [], (JList []). split; [reflexivity|]. reflexivity.
Qed.

Lemma build_vocab_from_ok_iff (objs : list json) (v : gmap pystr nat) :
  (exists v', Reco.build_vocab_from env v objs = Ok v') <->
  Forall has_usable_skills objs.
Proof.
  revert v. induction objs as [|obj objs IH]; intros v; cbn [Reco.build_vocab_from].
  - split; [constructor|eauto].
  - rewrite Forall_cons, <- skills_readable_iff. split.
    + intros (v' & H).
      destruct (obj_get obj (u "skills") (JList [])) as [sk|e] eqn:Eg; [|discriminate].
      rsimpl in H. destruct (Reco.norm_list env sk) as [toks|e] eqn:En; [|discriminate].
      rsimpl in H. split; [exists toks, sk; auto|].
      apply (IH (fold_left Reco.vocab_add toks v)). exists v'. exact H.
    + intros [(toks & sk & Hg & Hn) Hrest]. rewrite Hg. rsimpl. rewrite Hn. rsimpl.
      apply IH. exact Hrest.
Qed.

Lemma build_vocab_from_error (objs : list json) (v : gmap pystr nat) (e : exn) :
  Reco.build_vocab_from env v objs = Raise e -> e = AttributeError \/ e = TypeError.
Proof.
  revert v. induction objs as [|obj objs IH]; intros v; cbn [Reco.build_vocab_from];
    [discriminate|].
  destruct (obj_get obj (u "skills") (JList [])) as [sk|e'] eqn:Eg; rsimpl.
  - destruct (Reco.norm_list env sk) as [toks|e'] eqn:En; rsimpl; [apply IH|].
    intros [= <-]. right. eapply norm_list_error. exact En.
  - intros [= <-]. left. eapply obj_get_error. exact Eg.
Qed.

(** X17: [_build_vocab] succeeds exactly when every object is a dict
    whose "skills" entry, if any, can be iterated or is false for Python;
    otherwise it raises [AttributeError] (an object that is not a dict) or
    [TypeError] (skills that are [True] or a non-zero number). *)
Theorem build_vocab_succeeds_iff (objs : list json) :
  ((exists vocab, Reco._build_vocab env objs = Ok vocab) <->
   Forall has_usable_skills objs) /\
  (forall e, Reco._build_vocab env objs = Raise e ->
             e = AttributeError \/ e = TypeError).
Proof.
  split; [apply build_vocab_from_ok_iff|apply build_vocab_from_error].
Qed.

(** A vector of zeros and ones. *)
Definition bits (v : list Q) : Prop :=
  forall i x, v !! i = Some x -> x = 0%Q \/ x = 1%Q.

(** What the token loops leave in a vector: it has one entry for each
    index of the vocabulary, each 0 or 1, and the entry is 1 exactly at
    the index of a token of the list and, when a hint token is in the
    list, at the index of "c++". *)
Definition marks (vocab : gmap pystr nat) (hints toks : list pystr)
  (v : list Q) : Prop :=
  length v = size vocab /\ bits v /\
  forall i, v !! i = Some 1%Q <->
            exists t, t ∈ toks /\
                      (vocab !! t = Some i \/
                       (t ∈ hints /\ vocab !! u "c++" = Some i)).

Lemma set_opt_entries (o : option nat) (v v' : list Q) :
  match o with Some j => Reco.set_one j v | None => Ok v end = Ok v' ->
  length v' = length v /\ (bits v -> bits v') /\
  forall i, v' !! i = Some 1%Q <-> o = Some i \/ v !! i = Some 1%Q.
Proof.
  destruct o as [j|].
  - unfold Reco.set_one. destruct (Nat.ltb_spec j (length v)) as [Hj|]; [|discriminate].
    intros [= <-]. split; [apply length_insert|]. split.
    + intros Hb i x Hi. apply list_lookup_insert_Some in Hi.
      destruct Hi as [(_ & <- & _)|[_ Hi]]; [right; reflexivity|eapply Hb; exact Hi].
    + intros i. rewrite list_lookup_insert_Some. split.
      * intros [(-> & _ & _)|[_ H]]; [left; reflexivity|right; exact H].
      * intros [[= ->]|H]; [left; repeat split; exact Hj|].
        destruct (decide (j = i)) as [->|Hne]; [left|right; split; assumption].
        repeat split. exact Hj.
  - intros [= <-]. split; [reflexivity|]. split; [auto|].
    intros i. split; [auto|]. intros [H|H]; [discriminate|exact H].
Qed.

Lemma one_hot_step_entries (vocab : gmap pystr nat) (hints : list pystr)
  (v v' : list Q) (tok : pystr) :
  Reco.one_hot_step vocab hints (Ok v) tok = Ok v' ->
  length v' = length v /\ (bits v -> bits v') /\
  forall i, v' !! i = Some 1%Q <->
            v !! i = Some 1%Q \/ vocab !! tok = Some i \/
            (tok ∈ hints /\ vocab !! u "c++" = Some i).
Proof.
  unfold Reco.one_hot_step. rsimpl.
  destruct (match vocab !! tok with
            | Some j => Reco.set_one j v
            | None => Ok v
            end) as [v1|e] eqn:E1; rsimpl; [|discriminate].
  apply set_opt_entries in E1. destruct E1 as (L1 & B1 & H1).
  case_bool_decide as Hh.
  - intros E2. apply set_opt_entries in E2. destruct E2 as (L2 & B2 & H2).
    split; [congruence|]. split; [auto|]. intros i. rewrite H2, H1. tauto.
  - intros [= <-]. split; [exact L1|]. split; [exact B1|].
    intros i. rewrite H1. tauto.
Qed.

Lemma fold_one_hot_raise (vocab : gmap pystr nat) (hints toks : list pystr) (e : exn) :
  fold_left (Reco.one_hot_step vocab hints) toks (Raise e) = Raise e.
Proof. induction toks as [|t toks IH]; cbn [fold_left]; [reflexivity|exact IH]. Qed.

Lemma fold_one_hot_entries (vocab : gmap pystr nat) (hints toks : list pystr) :
  forall v v',
    fold_left (Reco.one_hot_step vocab hints) toks (Ok v) = Ok v' ->
    length v' = length v /\ (bits v -> bits v') /\
    forall i, v' !! i = Some 1%Q <->
              v !! i = Some 1%Q \/
              exists t, t ∈ toks /\
                        (vocab !! t = Some i \/
                         (t ∈ hints /\ vocab !! u "c++" = Some i)).
Proof.
  induction toks as [|t toks IH]; intros v v'; cbn [fold_left].
  - intros [= <-]. split; [reflexivity|]. split; [auto|].
    intros i. split; [auto|]. intros [H|(t & Ht & _)]; [exact H|].
    apply elem_of_nil in Ht. contradiction.
  - destruct (Reco.one_hot_step vocab hints (Ok v) t) as [v1|e] eqn:E.
    2:{ rewrite fold_one_hot_raise. discriminate. }
    intros H. apply one_hot_step_entries in E. destruct E as (L1 & B1 & H1).
    destruct (IH v1 v' H) as (L2 & B2 & H2).
    split; [congruence|]. split; [auto|]. intros i. rewrite H2, H1. split.
    + intros [[Hv|Ht]|(t' & Ht' & Hm)].
      * left. exact Hv.
      * right. exists t. split; [apply list_elem_of_here|exact Ht].
      * right. exists t'. split; [apply list_elem_of_further; exact Ht'|exact Hm].
    + intros [Hv|(t' & Ht' & Hm)]; [auto|].
      apply elem_of_cons in Ht'. destruct Ht' as [->|Ht']; [auto|].
      right. exists t'. auto.
Qed.

Lemma one_hot_marks (vocab : gmap pystr nat) (hints toks : list pystr) (v : list Q) :
  Reco.one_hot vocab hints (size vocab) toks = Ok v -> marks vocab hints toks v.
Proof.
  unfold Reco.one_hot. intros H. apply fold_one_hot_entries in H.
  destruct H as (Hl & Hb & He). split; [rewrite Hl; apply repeat_length|].
  split.
  - apply Hb. intros i x Hi. apply lookup_repeat in Hi. left. tauto.
  - intros i. rewrite He. split; [|auto].
    intros [H|H]; [|exact H]. apply lookup_repeat in H. destruct H as [H _].
    discriminate H.
Qed.





(** X19: a catalog without any skill token gives an empty ranking, for
    every request, even when its objects have ids or counts that could not
    be converted. *)
Theorem rank_empty_vocabulary (objs : list json) (req : Reco.RecoRequest)
  (vocab : gmap pystr nat) :
  Reco._build_vocab env objs = Ok vocab ->
  size vocab = 0 ->
  Reco.rank env objs req = Ok [].
Proof.
  intros Hv Hs. unfold Reco.rank. rewrite Hv. rsimpl.
  unfold Reco._one_hot_matrix. rewrite Hs. cbn [Nat.eqb]. rewrite orb_true_r. rsimpl.
  destruct (skills_to_vec_ok env vocab (Reco.skills req)) as (usr & Hu & _).
  { apply (build_vocab_from_ok env objs ∅ vocab vocab_empty_ok Hv). }
  rewrite Hu. rsimpl. reflexivity.
Qed.
End RecoExtra.

(** ** The query vector and the ranking *)

(** The tokens of a query that also stand for "c++" (line 245). *)
Definition query_hints : list pystr :=
  [u "arduino"; u "олимпиадная информатика"; u "codeforces"].

Section RankExtra.
Variable env : Env.

(** X20: against a vocabulary built from a catalog, the query vector of
    any skill list is built without an error; it has one entry for each
    index of the vocabulary, each 0 or 1, and the entry is 1 exactly at the
    indices of the normalised skills and, when "arduino", "олимпиадная
    информатика" or "codeforces" is among them, at the index of "c++". *)
Theorem skills_to_vec_marks_skills (objs : list json) (vocab : gmap pystr nat)
  (skills : list pystr) :
  Reco._build_vocab env objs = Ok vocab ->
  exists toks v,
    Reco.norm_list env (JList (map JStr skills)) = Ok toks /\
    Reco._skills_to_vec env skills vocab = Ok v /\
    marks vocab query_hints toks v.
Proof.
  intros Hv. destruct (norm_list_of_strings env skills) as (toks & Ht).
  destruct (skills_to_vec_ok env vocab skills) as (v & Hu & _).
  { apply (build_vocab_from_ok env objs ∅ vocab vocab_empty_ok Hv). }
  exists toks, v. split; [exact Ht|]. split; [exact Hu|].
  unfold Reco._skills_to_vec in Hu. rewrite Ht in Hu. rsimpl in Hu.
  apply one_hot_marks. exact Hu.
Qed.

Lemma one_hot_matrix_empty_or_full (objs : list json) (vocab : gmap pystr nat)
  (M : Reco.matrix) (ids : list Z) (pop : list Q) :
  Reco._one_hot_matrix env objs vocab = Ok (M, ids, pop) ->
  (Reco.msize M = 0 /\ Reco.nrows M = 0 /\ (objs = [] \/ size vocab = 0)) \/
  (Reco.msize M <> 0 /\ objs <> [] /\ size vocab <> 0 /\
   Reco.nrows M = length objs /\ Reco.ncols M = size vocab).
Proof.
  unfold Reco._one_hot_matrix.
  destruct (Nat.eqb_spec (length objs) 0) as [E|E]; cbn [orb].
  { intros [= <- _ _]. left. split; [reflexivity|]. split; [reflexivity|].
    left. destruct objs; [reflexivity|discriminate]. }
  destruct (Nat.eqb_spec (size vocab) 0) as [E'|E'].
  { intros [= <- _ _]. left. split; [reflexivity|]. split; [reflexivity|].
    right. exact E'. }
  destruct (Reco.one_hot_rows env vocab objs) as [r|e]; rsimpl; [|discriminate].
  intros [= <- _ _]. right. unfold Reco.msize. cbn [Reco.nrows Reco.ncols].
  split; [nia|]. split; [intros ->; apply E; reflexivity|].
  split; [exact E'|]. split; reflexivity.
Qed.

Lemma cosine_scores_length (usr : list Q) (M : Reco.matrix) :
  (Reco.msize M = 0 -> Reco.nrows M = 0) ->
  (Reco.msize M <> 0 -> Reco.ncols M = length usr) ->
  length (Reco.rows M) = Reco.nrows M ->
  exists scores,
    Reco._cosine_scores env usr M = Ok scores /\ length scores = Reco.nrows M.
Proof.
  intros Hz Hc Hr. unfold Reco._cosine_scores.
  destruct (Nat.eqb_spec (Reco.msize M) 0) as [E|E].
  - exists []. split; [reflexivity|]. symmetry. apply Hz. exact E.
  - destruct (Qeq_bool (Np.norm env usr) 0).
    + eexists. split; [reflexivity|]. apply repeat_length.
    + rewrite (Hc E), Nat.eqb_refl. cbn [negb]. eexists. split; [reflexivity|].
      rewrite length_zip_with, !length_map. lia.
Qed.

(** Once the vocabulary and the matrix are built, the rest of the ranking
    cannot fail. *)
Lemma rank_after_matrix (objs : list json) (req : Reco.RecoRequest)
  (vocab : gmap pystr nat) (M : Reco.matrix) (ids : list Z) (pop : list Q) :
  Reco._build_vocab env objs = Ok vocab ->
  Reco._one_hot_matrix env objs vocab = Ok (M, ids, pop) ->
  exists usr scores,
    Reco._skills_to_vec env (Reco.skills req) vocab = Ok usr /\
    Reco._cosine_scores env usr M = Ok scores /\
    length scores = Reco.nrows M /\
    Reco.rank env objs req
    = Ok (map (fun i => {| Reco.id := nth i ids 0%Z; Reco.score := nth i scores 0%Q |})
              (firstn (Z.to_nat (Reco.top_k req))
                      (Np.lexsort [Np.neg pop; Np.neg scores]))).
Proof.
  intros Hv Hm.
  assert (Hb : forall t j, vocab !! t = Some j -> j < size vocab).
  { apply (build_vocab_from_ok env objs ∅ vocab vocab_empty_ok Hv). }
  pose proof (one_hot_matrix_ok env vocab objs Hb) as Hok. rewrite Hm in Hok.
  destruct Hok as (_ & Hrows & Hids & Hpop & Hfull).
  destruct (skills_to_vec_ok env vocab (Reco.skills req) Hb) as (usr & Husr & Hlu).
  destruct (cosine_scores_length usr M) as (scores & Hsc & Hls).
  { intros Hz. destruct (one_hot_matrix_empty_or_full objs vocab M ids pop Hm)
      as [(_ & Hn & _)|(Hnz & _)]; [exact Hn|contradiction]. }
  { intros Hnz. destruct (Hfull Hnz) as [_ Hc]. congruence. }
  { exact Hrows. }
  exists usr, scores. split; [exact Husr|]. split; [exact Hsc|]. split; [exact Hls|].
  unfold Reco.rank. rewrite Hv. rsimpl. rewrite Hm. rsimpl. rewrite Husr. rsimpl.
  rewrite Hsc. rsimpl.
  destruct (Nat.eqb_spec (length scores) 0) as [E|E].
  - destruct scores; [|discriminate].
    replace (Np.lexsort [Np.neg pop; Np.neg []]) with (@nil nat) by reflexivity.
    rewrite firstn_nil. reflexivity.
  - destruct (lexsort_two pop scores) as [Hperm _].
    apply take_zip_records; [congruence|].
    apply Forall_forall. intros i Hi. apply subseteq_take in Hi.
    apply list_elem_of_In in Hi. apply (Permutation_in _ Hperm) in Hi.
    apply in_seq in Hi. lia.
Qed.

(** X21: an answer has min(k, n) items, where n is the number of objects
    of the catalog and k is [max(1, limit)] (50 for a limit that is absent
    or 0), unless the catalog has no skill token at all, when it is empty;
    so a catalog with a skill token never gets an empty answer. *)
Theorem rank_answer_size (objs : list json) (req : Reco.RecoRequest)
  (vocab : gmap pystr nat) (answer : list Reco.RecoResponseItem) :
  Reco._build_vocab env objs = Ok vocab ->
  Reco.rank env objs req = Ok answer ->
  length answer
  = (if Nat.eqb (size vocab) 0 then 0
     else Nat.min (Z.to_nat (Reco.top_k req)) (length objs)) /\
  (size vocab <> 0 -> 1 <= length answer).
Proof.
  intros Hv Hr.
  destruct (Reco._one_hot_matrix env objs vocab) as [[[M ids] pop]|e] eqn:Hm.
  2:{ unfold Reco.rank in Hr. rewrite Hv in Hr. rsimpl in Hr. rewrite Hm in Hr.
      discriminate Hr. }
  destruct (rank_after_matrix objs req vocab M ids pop Hv Hm)
    as (usr & scores & _ & _ & Hls & Hrank).
  rewrite Hrank in Hr. injection Hr as <-.
  destruct (lexsort_two pop scores) as [Hperm _]. apply Permutation_length in Hperm.
  rewrite length_seq in Hperm.
  rewrite length_map, length_take, Hperm, Hls.
  assert (Hk : 1 <= Z.to_nat (Reco.top_k req)) by (unfold Reco.top_k; lia).
  destruct (one_hot_matrix_empty_or_full objs vocab M ids pop Hm)
    as [(_ & Hn & Hcase)|(_ & Hobjs & Hsize & Hn & _)].
  - rewrite Hn. destruct Hcase as [->|Hs].
    + cbn in Hv. injection Hv as <-. rewrite map_size_empty. cbn.
      split; [lia|intros H; contradiction].
    + rewrite Hs. cbn [Nat.eqb]. split; [lia|intros H; contradiction].
  - rewrite Hn. destruct (Nat.eqb_spec (size vocab) 0) as [|_]; [contradiction|].
    split; [reflexivity|]. intros _. destruct objs; [contradiction|cbn [length]; lia].
Qed.

Lemma popularity_error_kind (obj : json) (e : exn) :
  Reco.popularity env obj = Raise e ->
  e = AttributeError \/ e = TypeError \/ e = ValueError.
Proof.
  unfold Reco.popularity.
  destruct (obj_get obj (u "like_count") (JNum 0)) as [lc|e1] eqn:E1; rsimpl.
  2:{ intros [= <-]. apply obj_get_error in E1. auto. }
  destruct (obj_get obj (u "member_count") lc) as [mc|e2] eqn:E2; rsimpl.
  2:{ intros [= <-]. apply obj_get_error in E2. auto. }
  intros H. apply py_float_error in H. tauto.
Qed.

Definition catalog_error (e : exn) : Prop :=
  e = AttributeError \/ e = TypeError \/ e = ValueError \/ e = OverflowError.

Lemma one_hot_row_error (vocab : gmap pystr nat) (obj : json) (e : exn) :
  (forall t j, vocab !! t = Some j -> j < size vocab) ->
  Reco.one_hot_row env vocab obj = Raise e -> catalog_error e.
Proof.
  intros Hb. unfold Reco.one_hot_row, catalog_error.
  destruct (obj_get obj (u "id") (JNum 0)) as [i|e'] eqn:E1; rsimpl.
  2:{ intros [= <-]. apply obj_get_error in E1. auto. }
  destruct (Reco.py_int env i) as [z|e'] eqn:E2; rsimpl.
  2:{ intros [= <-]. apply py_int_error in E2. tauto. }
  unfold Reco.to_int64.
  destruct ((- 2 ^ 63 <=? z)%Z && (z <? 2 ^ 63)%Z); rsimpl.
  2:{ intros [= <-]. auto. }
  destruct (Reco.popularity env obj) as [p|e'] eqn:E3; rsimpl.
  2:{ intros [= <-]. apply popularity_error_kind in E3. tauto. }
  destruct (obj_get obj (u "skills") (JList [])) as [sk|e'] eqn:E4; rsimpl.
  2:{ intros [= <-]. apply obj_get_error in E4. auto. }
  destruct (Reco.norm_list env sk) as [toks|e'] eqn:E5; rsimpl.
  2:{ intros [= <-]. apply norm_list_error in E5. auto. }
  destruct (one_hot_ok vocab [u "arduino"] (size vocab) toks Hb) as (v & -> & _).
  rsimpl. discriminate.
Qed.

Lemma one_hot_matrix_error (vocab : gmap pystr nat) (objs : list json) (e : exn) :
  (forall t j, vocab !! t = Some j -> j < size vocab) ->
  Reco._one_hot_matrix env objs vocab = Raise e -> catalog_error e.
Proof.
  intros Hb. unfold Reco._one_hot_matrix.
  destruct (Nat.eqb (length objs) 0 || Nat.eqb (size vocab) 0); [discriminate|].
  assert (H : forall e', Reco.one_hot_rows env vocab objs = Raise e' -> catalog_error e').
  { induction objs as [|obj objs IH]; intros e'; cbn [Reco.one_hot_rows]; [discriminate|].
    destruct (Reco.one_hot_row env vocab obj) as [r|e1] eqn:E1; rsimpl.
    2:{ intros [= <-]. eapply one_hot_row_error; eassumption. }
    destruct (Reco.one_hot_rows env vocab objs) as [rs|e2]; rsimpl; [discriminate|].
    intros [= <-]. apply IH. reflexivity. }
  destruct (Reco.one_hot_rows env vocab objs) as [r|e']; rsimpl; [discriminate|].
  intros [= <-]. apply H. reflexivity.
Qed.

(** X22: whether a ranking fails depends on the catalog only: when it
    raises for one request it raises the same error for every request, and
    the error is an [AttributeError], [TypeError], [ValueError] or
    [OverflowError] from reading an object of the catalog. *)
Theorem rank_failure_is_catalog_failure (objs : list json)
  (req : Reco.RecoRequest) (e : exn) :
  Reco.rank env objs req = Raise e ->
  (forall req', Reco.rank env objs req' = Raise e) /\
  (e = AttributeError \/ e = TypeError \/ e = ValueError \/ e = OverflowError).
Proof.
  intros H.
  destruct (Reco._build_vocab env objs) as [vocab|e1] eqn:Hv.
  2:{ unfold Reco.rank in H. rewrite Hv in H. rsimpl in H. injection H as <-. split.
      - intros req'. unfold Reco.rank. rewrite Hv. reflexivity.
      - pose proof (build_vocab_from_error env objs ∅ e1 Hv) as He. tauto. }
  destruct (Reco._one_hot_matrix env objs vocab) as [[[M ids] pop]|e2] eqn:Hm.
  { destruct (rank_after_matrix objs req vocab M ids pop Hv Hm)
      as (usr & scores & _ & _ & _ & Hrank).
    rewrite Hrank in H. discriminate H. }
  unfold Reco.rank in H. rewrite Hv in H. rsimpl in H. rewrite Hm in H. rsimpl in H.
  injection H as <-. split.
  - intros req'. unfold Reco.rank. rewrite Hv. rsimpl. rewrite Hm. reflexivity.
  - apply (one_hot_matrix_error vocab objs e2); [|exact Hm].
    apply (build_vocab_from_ok env objs ∅ vocab vocab_empty_ok Hv).
Qed.




End RankExtra.


Lemma rank_empty_vocabulary_witness :
  Reco.rank Sample.env
    [JDict [(u "id", JStr (u "seven")); (u "skills", JList [])]]
    {| Reco.skills := [u "python"]; Reco.limit := Some 5%Z |} = Ok [].
Proof.
  apply (rank_empty_vocabulary Sample.env _ _ ∅).
  - vm_compute. reflexivity.
  - vm_compute. reflexivity.
Defined.

Lemma skills_to_vec_marks_skills_witness :
  exists toks v,
    Reco.norm_list Sample.env (JList (map JStr [u "Arduino"; u "SQL"])) = Ok toks /\
    Reco._skills_to_vec Sample.env [u "Arduino"; u "SQL"] Sample.vocab = Ok v /\
    marks Sample.vocab query_hints toks v.
Proof.
  apply (skills_to_vec_marks_skills Sample.env Sample.catalog).
  vm_compute. reflexivity.
Defined.

Lemma rank_answer_size_witness :
  exists answer,
    Reco.rank Sample.env Sample.catalog
      {| Reco.skills := [u "Python"]; Reco.limit := Some 2%Z |} = Ok answer /\
    length answer = 2.
Proof.
  destruct (Reco.rank Sample.env Sample.catalog
              {| Reco.skills := [u "Python"]; Reco.limit := Some 2%Z |})
    as [answer|e] eqn:E; [|vm_compute in E; discriminate E].
  exists answer. split; [reflexivity|].
  destruct (rank_answer_size Sample.env Sample.catalog
              {| Reco.skills := [u "Python"]; Reco.limit := Some 2%Z |}
              Sample.vocab answer) as [Hl _].
  - vm_compute. reflexivity.
  - exact E.
  - rewrite Hl. vm_compute. reflexivity.
Defined.

Lemma rank_failure_is_catalog_failure_witness :
  let objs :=
    [Sample.community 1 ["python"%string] 3;
     JDict [(u "id", JStr (u "seven")); (u "skills", Sample.jstrs ["python"%string])]] in
  Reco.rank Sample.env objs {| Reco.skills := []; Reco.limit := None |}
  = Raise ValueError /\
  Reco.rank Sample.env objs {| Reco.skills := [u "python"]; Reco.limit := Some 1%Z |}
  = Raise ValueError.
Proof.
  cbn zeta.
  assert (H : Reco.rank Sample.env
                [Sample.community 1 ["python"%string] 3;
                 JDict [(u "id", JStr (u "seven"));
                        (u "skills", Sample.jstrs ["python"%string])]]
                {| Reco.skills := []; Reco.limit := None |} = Raise ValueError)
    by (vm_compute; reflexivity).
  split; [exact H|].
  apply (rank_failure_is_catalog_failure Sample.env _ _ ValueError H).
Defined.


Section ScoreExtra.
Variable env : Env.

Lemma bits_tail (x : Q) (v : list Q) : bits (x :: v) -> bits v.
Proof. intros H i y Hi. apply (H (S i)). exact Hi. Qed.

Lemma bits_of_Forall (v : list Q) :
  Forall (fun x => x = 0%Q \/ x = 1%Q) v -> bits v.
Proof.
  intros H i x Hi. rewrite Forall_forall in H. apply H.
  eapply list_elem_of_lookup_2. exact Hi.
Qed.

Lemma dot_disjoint_bits (row usr : list Q) :
  bits row -> bits usr ->
  (forall j, row !! j = Some 1%Q -> usr !! j = Some 1%Q -> False) ->
  (Np.dot row usr == 0)%Q.
Proof.
  revert usr. induction row as [|x row IH]; intros [|y usr] Hr Hu Hd;
    try reflexivity.
  rewrite dot_cons, (IH usr (bits_tail _ _ Hr) (bits_tail _ _ Hu)).
  2:{ intros j H1 H2. apply (Hd (S j)); assumption. }
  destruct (Hr 0 x eq_refl) as [->| ->]; [reflexivity|].
  destruct (Hu 0 y eq_refl) as [->| ->]; [reflexivity|].
  exfalso. apply (Hd 0); reflexivity.
Qed.

(** X24: an item whose row has no 1 where the query vector has one, that
    is an item without any of the requested skills, gets the score 0. *)
Theorem score_zero_without_common_skill (usr : list Q) (M : Reco.matrix)
  (scores row : list Q) (i : nat) (s : Q) :
  Reco._cosine_scores env usr M = Ok scores ->
  Reco.rows M !! i = Some row ->
  scores !! i = Some s ->
  bits row -> bits usr ->
  (forall j, row !! j = Some 1%Q -> usr !! j = Some 1%Q -> False) ->
  (s == 0)%Q.
Proof.
  intros Hsc Hrow Hs Hr Hu Hd. unfold Reco._cosine_scores in Hsc.
  destruct (Nat.eqb (Reco.msize M) 0).
  { injection Hsc as <-. discriminate Hs. }
  destruct (Qeq_bool (Np.norm env usr) 0).
  { injection Hsc as <-. apply lookup_repeat in Hs. destruct Hs as [-> _]. reflexivity. }
  destruct (negb (Nat.eqb (Reco.ncols M) (length usr))); [discriminate|].
  injection Hsc as <-.
  apply lookup_zip_with_Some in Hs. destruct Hs as (d & n & -> & Hdot & _).
  rewrite list_lookup_fmap, Hrow in Hdot. injection Hdot as <-.
  unfold Qdiv. rewrite (dot_disjoint_bits row usr Hr Hu Hd). apply Qmult_0_l.
Qed.
End ScoreExtra.

Lemma score_zero_without_common_skill_witness :
  let M := {| Reco.nrows := 3; Reco.ncols := 4;
              Reco.rows := [[1; 1; 0; 0]; [0; 1; 1; 0]; [1; 0; 0; 1]]%Q |} in
  exists scores s,
    Reco._cosine_scores Sample.env [0; 0; 0; 1]%Q M = Ok scores /\
    scores !! 0 = Some s /\ (s == 0)%Q.
Proof.
  cbn zeta.
  assert (H : exists scores s,
             Reco._cosine_scores Sample.env [0; 0; 0; 1]%Q
               {| Reco.nrows := 3; Reco.ncols := 4;
                  Reco.rows := [[1; 1; 0; 0]; [0; 1; 1; 0]; [1; 0; 0; 1]]%Q |}
             = Ok scores /\ scores !! 0 = Some s)
    by (do 2 eexists; split; vm_compute; reflexivity).
  destruct H as (scores & s & H1 & H2).
  exists scores, s. split; [exact H1|]. split; [exact H2|].
  apply (score_zero_without_common_skill Sample.env _ _ _ [1; 1; 0; 0]%Q 0 s H1
           eq_refl H2).
  - apply bits_of_Forall.
    repeat first [apply List.Forall_nil|apply List.Forall_cons; [auto|]].
  - apply bits_of_Forall.
    repeat first [apply List.Forall_nil|apply List.Forall_cons; [auto|]].
  - intros [|[|[|[|j]]]] Hr Hu; vm_compute in Hr, Hu; discriminate.
Defined.
